(** * Content-moderation engine of sidlabsBackend: a shallow embedding

    Sources embedded here:
    - [src/services/moderationService.js]: the detectors, the trust score and
      [scan];
    - [src/utils/moderation.js]: [sanitizeInput] and the pre-submission
      checks [analyzeTextForModeration], [checkForPHI] and
      [checkForProhibitedWords].

    Conventions.
    - A JavaScript string is a sequence of code units; the code units
      modelled are the 256 values of [ascii] (the Latin-1 range of UTF-16),
      and a string is a [list ascii].
    - Numbers that the code computes with fractions (weights, scores,
      thresholds) are rationals [Q]: the arithmetic is the exact one that
      the double-precision operations of the source approximate.
    - Code that may throw returns a [completion]; [try]/[catch] is the
      combinator [try_catch].
    - The optional libraries and the database are fields of a [Host] record:
      the phone validator, the profanity dictionary, the user lookup and the
      clock. *)

From Stdlib Require Import Ascii String List NArith ZArith QArith Qminmax Bool Lia Lqa.
Import ListNotations.

(** ** JavaScript strings *)

Definition jsstring := list ascii.

Definition js (s : string) : jsstring := list_ascii_of_string s.

Definition code (c : ascii) : N := N_of_ascii c.

Definition in_range (lo hi : N) (c : ascii) : bool :=
  ((lo <=? code c) && (code c <=? hi))%N.

Definition is_char (a c : ascii) : bool := Ascii.eqb a c.

(** [String.prototype.toLowerCase] and [toUpperCase], one code unit at a
    time, on the Latin-1 range: the letters A-Z and the accented capitals
    U+00C0..U+00DE (U+00D7, the multiplication sign, is not a letter). *)
Definition lower_char (c : ascii) : ascii :=
  if in_range 65 90 c || (in_range 192 222 c && negb (code c =? 215)%N)
  then ascii_of_N (code c + 32) else c.

(** Upper-casing is the canonicalisation of the [i] flag: a code unit whose
    upper case lies outside the range (U+00B5, U+00FF) or is not a single
    code unit (U+00DF) is left alone. *)
Definition upper_char (c : ascii) : ascii :=
  if in_range 97 122 c || (in_range 224 254 c && negb (code c =? 247)%N)
  then ascii_of_N (code c - 32) else c.

(** Within the range modelled, lower-casing maps code unit to code unit and
    never turns a character that is not a word character into one.  Outside
    it that fails: U+212A (KELVIN SIGN) becomes "k" and U+0130 becomes "i"
    followed by U+0307.  What is stated about word boundaries in a
    lower-cased text is therefore stated on the lower-cased text. *)
Definition toLowerCase (s : jsstring) : jsstring := map lower_char s.

(** [\s], and the characters removed by [trim]: TAB, LF, VT, FF, CR, SPACE
    and NBSP. *)
Definition is_space (c : ascii) : bool :=
  in_range 9 13 c || (code c =? 32)%N || (code c =? 160)%N.

(** [\d] and [\w]. *)
Definition is_digit (c : ascii) : bool := in_range 48 57 c.

Definition is_word (c : ascii) : bool :=
  in_range 97 122 c || in_range 65 90 c || is_digit c || (code c =? 95)%N.

(** [.] matches everything but the line terminators LF and CR. *)
Definition is_dot (c : ascii) : bool :=
  negb ((code c =? 10)%N || (code c =? 13)%N).

Definition one_of (s : string) (c : ascii) : bool :=
  existsb (is_char c) (js s).

Fixpoint jsstring_eqb (a b : jsstring) : bool :=
  match a, b with
  | [], [] => true
  | x :: a', y :: b' => Ascii.eqb x y && jsstring_eqb a' b'
  | _, _ => false
  end.

(** [s.startsWith(p)] *)
Fixpoint startsWith (s p : jsstring) : bool :=
  match p, s with
  | [], _ => true
  | x :: p', y :: s' => Ascii.eqb x y && startsWith s' p'
  | _ :: _, [] => false
  end.

Definition endsWith (s p : jsstring) : bool := startsWith (rev s) (rev p).

(** The position found by [s.indexOf(p)], [None] for the result -1. *)
Fixpoint index_of (s p : jsstring) : option nat :=
  if startsWith s p then Some 0%nat
  else match s with
       | [] => None
       | _ :: s' => option_map S (index_of s' p)
       end.

Definition indexOf (s p : jsstring) : Z :=
  match index_of s p with Some i => Z.of_nat i | None => (-1)%Z end.

Definition includes (s p : jsstring) : bool :=
  match index_of s p with Some _ => true | None => false end.

(** [s.substring(a, b)] for [a <= b]. *)
Definition substring (a b : nat) (s : jsstring) : jsstring :=
  firstn (b - a) (skipn a s).

(** [s.trim()] *)
Fixpoint trimStart (s : jsstring) : jsstring :=
  match s with
  | c :: s' => if is_space c then trimStart s' else s
  | [] => []
  end.

Definition trimEnd (s : jsstring) : jsstring := rev (trimStart (rev s)).

Definition trim (s : jsstring) : jsstring := trimEnd (trimStart s).

(** ** Regular expressions

    The patterns of the source are kept as syntax trees and run by a
    backtracking matcher that follows the ECMAScript semantics: alternatives
    left to right, greedy and lazy quantifiers, one capture group with its
    back-reference, [\b], and the [i] flag. *)

Inductive regex : Type :=
| Eps                                                    (* empty pattern *)
| Class (invert : bool) (p : ascii -> bool)              (* [..], [^..], a literal, \d, . *)
| Seq (r1 r2 : regex)
| Alt (r1 r2 : regex)                                    (* r1|r2 *)
| Rep (lo : nat) (hi : option nat) (greedy : bool) (r : regex) (* r{lo,hi}, r{lo,}, lazy with ? *)
| Group (r : regex)                                      (* (r), capture 1 *)
| BackRef                                                (* \1 *)
| WordB.                                                 (* \b *)

(** A matcher state: the code unit before the current position (for [\b]),
    the text still to read, and capture 1. *)
Record mstate : Type := MState {
  prev : option ascii;
  rest : jsstring;
  cap1 : option jsstring
}.

Definition cont := mstate -> option mstate.

Definition advance (s : mstate) (c : ascii) (tl : jsstring) : mstate :=
  MState (Some c) tl (cap1 s).

(** Membership in a class: with the [i] flag a code unit belongs to the
    class when one with the same canonical form does. *)
Definition class_has (icase : bool) (p : ascii -> bool) (c : ascii) : bool :=
  if icase then p c || p (upper_char c) || p (lower_char c) else p c.

Definition canon (icase : bool) (c : ascii) : ascii :=
  if icase then upper_char c else c.

(** Reads the captured text [w] again at the current position. *)
Fixpoint read_back (icase : bool) (w : jsstring) (s : mstate) : option mstate :=
  match w with
  | [] => Some s
  | x :: w' =>
      match rest s with
      | c :: tl =>
          if Ascii.eqb (canon icase x) (canon icase c)
          then read_back icase w' (advance s c tl) else None
      | [] => None
      end
  end.

Definition at_word_boundary (s : mstate) : bool :=
  let a := match prev s with Some c => is_word c | None => false end in
  let b := match rest s with c :: _ => is_word c | [] => false end in
  xorb a b.

(** The quantifier loop (RepeatMatcher of the language definition): [max]
    iterations are still allowed and [min] still required; once [min] is 0 an
    iteration that reads nothing is refused. *)
Fixpoint rep (step : cont -> cont) (max min : nat) (greedy : bool)
    (k : cont) (s : mstate) : option mstate :=
  match max with
  | O => k s
  | S max' =>
      let d : cont := fun y =>
        if (min =? 0)%nat && (length (rest y) =? length (rest s))%nat then None
        else rep step max' (pred min) greedy k y in
      if (0 <? min)%nat then step d s
      else if greedy then
        match step d s with Some e => Some e | None => k s end
      else
        match k s with Some e => Some e | None => step d s end
  end.

(** [m icase r k s]: match [r] at [s], then continue with [k].  An unbounded
    quantifier [r{lo,}] runs as [r{lo, lo + n}] where [n] code units remain:
    beyond the first [lo] iterations each one reads at least one. *)
Fixpoint m (icase : bool) (r : regex) (k : cont) (s : mstate) {struct r}
  : option mstate :=
  match r with
  | Eps => k s
  | Class invert p =>
      match rest s with
      | c :: tl =>
          if xorb invert (class_has icase p c) then k (advance s c tl) else None
      | [] => None
      end
  | Seq r1 r2 => m icase r1 (m icase r2 k) s
  | Alt r1 r2 =>
      match m icase r1 k s with
      | Some e => Some e
      | None => m icase r2 k s
      end
  | Rep lo hi greedy r1 =>
      let max := match hi with
                 | Some h => h
                 | None => (lo + length (rest s))%nat
                 end in
      rep (m icase r1) max lo greedy k s
  | Group r1 =>
      let start := rest s in
      m icase r1
        (fun y => k (MState (prev y) (rest y)
                       (Some (firstn (length start - length (rest y)) start))))
        s
  | BackRef =>
      match cap1 s with
      | None => k s
      | Some w =>
          match read_back icase w s with
          | Some y => k y
          | None => None
          end
      end
  | WordB => if at_word_boundary s then k s else None
  end.

(** One match attempt at a position. *)
Definition match_at (icase : bool) (r : regex) (before : option ascii)
    (txt : jsstring) : option mstate :=
  m icase r (fun y => Some y) (MState before txt None).

(** [re.test(s)] for a pattern without the [g] flag: the leftmost position
    where the pattern matches, if any. *)
Fixpoint search (icase : bool) (r : regex) (before : option ascii)
    (txt : jsstring) : bool :=
  match match_at icase r before txt with
  | Some _ => true
  | None =>
      match txt with
      | [] => false
      | c :: tl => search icase r (Some c) tl
      end
  end.

Definition regex_test (icase : bool) (r : regex) (s : jsstring) : bool :=
  search icase r None s.

(** [s.match(re)] with the [g] flag: the matched substrings from left to
    right, [[]] standing for [null].  [skip] counts the code units of the
    last match still to step over; after an empty match the next attempt is
    one position further. *)
Fixpoint match_from (icase : bool) (r : regex) (before : option ascii)
    (txt : jsstring) (skip : nat) {struct txt} : list jsstring :=
  match skip with
  | S n =>
      match txt with
      | [] => []
      | c :: tl => match_from icase r (Some c) tl n
      end
  | O =>
      match match_at icase r before txt with
      | Some e =>
          let len := (length txt - length (rest e))%nat in
          firstn len txt ::
            match txt with
            | [] => []
            | c :: tl => match_from icase r (Some c) tl (len - 1)
            end
      | None =>
          match txt with
          | [] => []
          | c :: tl => match_from icase r (Some c) tl 0
          end
      end
  end.

Definition match_all (icase : bool) (r : regex) (s : jsstring) : list jsstring :=
  match_from icase r None s 0.

(** [s.replace(re, f)] with the [g] flag; the replacement is a function of
    capture 1 (['$1$1'] doubles it, a plain string ignores it). *)
Fixpoint replace_from (icase : bool) (r : regex) (repl : option jsstring -> jsstring)
    (before : option ascii) (txt : jsstring) (skip : nat) {struct txt} : jsstring :=
  match skip with
  | S n =>
      match txt with
      | [] => []
      | c :: tl => replace_from icase r repl (Some c) tl n
      end
  | O =>
      match match_at icase r before txt with
      | Some e =>
          let len := (length txt - length (rest e))%nat in
          repl (cap1 e) ++
            match txt with
            | [] => []
            | c :: tl =>
                (if (len =? 0)%nat then [c] else [])
                  ++ replace_from icase r repl (Some c) tl (len - 1)
            end
      | None =>
          match txt with
          | [] => []
          | c :: tl => c :: replace_from icase r repl (Some c) tl 0
          end
      end
  end.

Definition replace_all (icase : bool) (r : regex)
    (repl : option jsstring -> jsstring) (s : jsstring) : jsstring :=
  replace_from icase r repl None s 0.

(** *** Pattern syntax helpers *)

Definition chr (c : ascii) : regex := Class false (is_char c).
Definition digit : regex := Class false is_digit.
Definition space : regex := Class false is_space.
Definition dot : regex := Class false is_dot.
Definition opt (r : regex) : regex := Rep 0 (Some 1%nat) true r.
Definition star (r : regex) : regex := Rep 0 None true r.
Definition plus (r : regex) : regex := Rep 1 None true r.
Definition times (n : nat) (r : regex) : regex := Rep n (Some n) true r.

Fixpoint seqs (rs : list regex) : regex :=
  match rs with
  | [] => Eps
  | [r] => r
  | r :: rs' => Seq r (seqs rs')
  end.

Fixpoint alts (rs : list regex) : regex :=
  match rs with
  | [] => Eps
  | [r] => r
  | r :: rs' => Alt r (alts rs')
  end.

(** The pattern of a plain word: one literal per code unit. *)
Definition literal (w : jsstring) : regex := seqs (map chr w).
Definition lit (s : string) : regex := literal (js s).

Definition range (lo hi : string) (c : ascii) : bool :=
  match js lo, js hi with
  | [a], [b] => in_range (code a) (code b) c
  | _, _ => false
  end.

(** [[c1 c2 ...]]: a class given by its predicates. *)
Definition any_of (ps : list (ascii -> bool)) : regex :=
  Class false (fun c => existsb (fun p => p c) ps).

Definition none_of (ps : list (ascii -> bool)) : regex :=
  Class true (fun c => existsb (fun p => p c) ps).

(** ** Completions: values and exceptions *)

Inductive completion (A : Type) : Type :=
| Normal (a : A)
| Throw.

Arguments Normal {A} a.
Arguments Throw {A}.

Definition bind {A B : Type} (c : completion A) (f : A -> completion B)
  : completion B :=
  match c with
  | Normal a => f a
  | Throw => Throw
  end.

Notation "x <- c ;; k" := (bind c (fun x => k))
  (at level 61, c at next level, right associativity).

(** [try { body } catch (e) { handler }] *)
Definition try_catch {A : Type} (body handler : completion A) : completion A :=
  match body with
  | Normal a => Normal a
  | Throw => handler
  end.

(** ** JavaScript values that reach [scan] *)

Inductive jsval : Type :=
| JUndefined
| JNull
| JBool (b : bool)
| JNum (n : Z)
| JStr (s : jsstring)
| JObj (fields : list (string * jsstring)).   (* an object, e.g. [{type: 'post'}] *)

(** Truthiness, as [if (v)], [!v] and [v ? a : b] test it. *)
Definition truthy (v : jsval) : bool :=
  match v with
  | JUndefined | JNull => false
  | JBool b => b
  | JNum n => negb (n =? 0)%Z
  | JStr s => match s with [] => false | _ => true end
  | JObj _ => true
  end.

Definition typeof_string (v : jsval) : bool :=
  match v with JStr _ => true | _ => false end.

(** ** The host: optional libraries, the user store and the clock *)

(** The user record, as far as the engine reads it: the creation time in
    milliseconds since the epoch, when present. *)
Record UserRecord : Type := { createdAt : option Z }.

Record Host : Type := {
  (** [isValidPhoneNumber(phone, 'US')] *)
  isValidPhoneNumber : jsstring -> completion bool;
  (** [profanityFilter.isProfane(text)] *)
  isProfane : jsstring -> completion bool;
  (** [User.findById(userId)], [None] for the result [null] *)
  findById : jsval -> completion (option UserRecord);
  (** [Date.now()] as [getUserTrustScore] reads it *)
  Date_now : Z;
  (** [new Date().toISOString()] at the end of [scan] *)
  Date_toISOString : jsstring
}.

(** The phone pattern, written three times in the source (the fallback
    validator, the PHI table and the validation pass of [detectPHI]):
    [\b\d{3}[-.\s]?\d{3}[-.\s]?\d{4}\b]. *)
Definition phone_regex : regex :=
  let sep := opt (any_of [one_of "-."; is_space]) in
  seqs [WordB; times 3 digit; sep; times 3 digit; sep; times 4 digit; WordB].

(** The validator used when [libphonenumber-js] cannot be loaded. *)
Definition fallback_isValidPhoneNumber (phone : jsstring) : completion bool :=
  Normal (regex_test false phone_regex phone).

(** The words of the fallback dictionary and of the direct check are made
    into patterns by escaping their metacharacters, so that every code unit
    stands for itself: [new RegExp(`\\b${escapedWord}\\b`, 'i')]. *)
Definition word_regex (word : jsstring) : regex :=
  seqs [WordB; literal word; WordB].

(** The dictionary used when [bad-words] cannot be loaded. *)
Definition basicProfanity : list jsstring :=
  map js ["fuck"; "shit"; "damn"; "ass"; "bitch"; "sex"; "porn"]%string.

Definition fallback_isProfane (text : jsstring) : completion bool :=
  match text with
  | [] => Normal false
  | _ =>
      let lower := toLowerCase text in
      Normal (existsb (fun word => regex_test true (word_regex word) lower)
                basicProfanity)
  end.

(** ** Pattern tables *)

Record Pattern : Type := {
  p_icase : bool;
  p_regex : regex;
  p_type : string;
  p_weight : Q
}.

Definition upper_az : ascii -> bool := range "A" "Z".
Definition lower_az : ascii -> bool := range "a" "z".

Definition PHI_PATTERNS : list Pattern :=
  [ {| p_icase := false; p_regex := phone_regex;
       p_type := "phone"; p_weight := 0.8 |};
    {| p_icase := false;
       p_regex := seqs [WordB; times 3 digit; chr "-"; times 2 digit; chr "-";
                        times 4 digit; WordB];
       p_type := "ssn"; p_weight := 1.0 |};
    {| p_icase := true;
       p_regex := seqs [WordB; plus (any_of [upper_az; is_digit; one_of "._%+-"]);
                        chr "@"; plus (any_of [upper_az; is_digit; one_of ".-"]);
                        chr "."; Rep 2 None true (any_of [upper_az]); WordB];
       p_type := "email"; p_weight := 0.6 |};
    {| p_icase := false;
       p_regex := seqs [WordB; times 5 digit;
                        opt (Seq (chr "-") (times 4 digit)); WordB];
       p_type := "zip"; p_weight := 0.5 |};
    {| p_icase := false;
       p_regex := seqs [WordB; Rep 1 (Some 2%nat) true digit; chr "/";
                        Rep 1 (Some 2%nat) true digit; chr "/";
                        Rep 2 (Some 4%nat) true digit; WordB];
       p_type := "date"; p_weight := 0.4 |};
    {| p_icase := true;
       p_regex := seqs [WordB;
                        alts [lit "street"; Seq (lit "st") (opt (chr "."));
                              lit "road"; Seq (lit "rd") (opt (chr "."));
                              lit "avenue"; Seq (lit "ave") (opt (chr "."));
                              lit "drive"; Seq (lit "dr") (opt (chr "."));
                              lit "lane"; Seq (lit "ln") (opt (chr "."));
                              lit "boulevard"; Seq (lit "blvd") (opt (chr "."))];
                        plus space; plus (any_of [is_word; is_space]); plus digit];
       p_type := "address"; p_weight := 0.7 |};
    {| p_icase := true;
       p_regex := seqs [WordB;
                        alts [lit "medical record"; lit "patient id"; lit "mrn";
                              lit "medical record number"];
                        star space; opt (chr ":"); star space; plus digit];
       p_type := "medical_record"; p_weight := 0.9 |} ].

Definition SALES_KEYWORDS : list jsstring :=
  map js ["buy now"; "purchase"; "special offer"; "limited time"; "act now";
          "call now"; "dm me"; "message me"; "contact me for"; "for sale";
          "discount"; "deal"; "cheap"; "affordable"; "best price";
          "lowest price"]%string.

Definition https_scheme : regex :=
  seqs [lit "http"; opt (chr "s"); lit "://"].

Definition SPAM_PATTERNS : list Pattern :=
  [ {| p_icase := false;
       p_regex := Seq (Group dot) (Rep 4 None true BackRef);
       p_type := "repeated_chars"; p_weight := 0.3 |};
    {| p_icase := true;
       p_regex := seqs [WordB;
                        alts [lit "click here"; lit "visit"; lit "check out";
                              lit "link in bio"];
                        plus space; https_scheme];
       p_type := "link_spam"; p_weight := 0.7 |};
    {| p_icase := true;
       p_regex := Alt (lit "www.") (lit "http");
       p_type := "urls"; p_weight := 0.5 |};
    {| p_icase := true;
       p_regex := seqs [WordB;
                        Group (alts [lit "free"; lit "win"; lit "prize";
                                     lit "congratulations"]);
                        plus space;
                        alts [lit "click"; lit "visit"; lit "call"]];
       p_type := "scam_keywords"; p_weight := 0.8 |} ].

(** [text.match(pattern.regex)] *)
Definition matches_of (p : Pattern) (text : jsstring) : list jsstring :=
  match_all (p_icase p) (p_regex p) text.

(** Number of elements as a rational ([matches.length], [urls.length]). *)
Definition count {A : Type} (l : list A) : Q := inject_Z (Z.of_nat (length l)).

(** ** The detectors *)

Record Detection : Type := {
  d_type : string;
  d_matches : list jsstring;
  d_weight : Q
}.

Record PhiResult : Type := {
  phi_score_of : Q;
  phi_detections : list Detection
}.

(** The state of the loops of [detectPHI]: [detections] and [phiScore]. *)
Definition phi_state : Type := (list Detection * Q)%type.

(** One turn of [for (const pattern of PHI_PATTERNS)]. *)
Definition phi_step (text : jsstring) (st : phi_state) (pattern : Pattern)
  : phi_state :=
  let matches := matches_of pattern text in
  match matches with
  | [] => st
  | _ =>
      (fst st ++ [ {| d_type := p_type pattern; d_matches := matches;
                      d_weight := p_weight pattern |} ],
       snd st + p_weight pattern * count matches)
  end.

(** One turn of [for (const phone of phoneMatches)], with its own
    [try]/[catch]. *)
Definition validate_step (h : Host) (st : phi_state) (phone : jsstring)
  : completion phi_state :=
  try_catch
    (ok <- isValidPhoneNumber h phone ;;
     Normal (if ok : bool
             then (fst st ++ [ {| d_type := "validated_phone";
                                  d_matches := [phone]; d_weight := 0.9 |} ],
                   snd st + 0.9)
             else st))
    (Normal st).

Fixpoint validate_loop (h : Host) (st : phi_state) (phones : list jsstring)
  : completion phi_state :=
  match phones with
  | [] => Normal st
  | phone :: more =>
      st' <- validate_step h st phone ;;
      validate_loop h st' more
  end.

(** [detections] and [phiScore] when [detectPHI] reaches its [return]. *)
Definition phi_total (h : Host) (text : jsstring) : completion phi_state :=
  let st := fold_left (phi_step text) PHI_PATTERNS ([], 0) in
  try_catch
    (validate_loop h st (match_all false phone_regex text))
    (Normal st).

Definition detectPHI (h : Host) (text : jsstring) : completion PhiResult :=
  st <- phi_total h text ;;
  Normal {| phi_score_of := Qmin (snd st) 1.0; phi_detections := fst st |}.

Record SalesResult : Type := {
  sales_score_of : Q;
  sales_matches : list jsstring
}.

Definition detectSalesPitch (text : jsstring) : SalesResult :=
  let lowerText := toLowerCase text in
  let st :=
    fold_left
      (fun (st : list jsstring * Q) keyword =>
         if includes lowerText keyword
         then (fst st ++ [keyword], snd st + 0.2)
         else st)
      SALES_KEYWORDS ([], 0) in
  {| sales_score_of := Qmin (snd st) 1.0; sales_matches := fst st |}.

Record SpamResult : Type := {
  spam_score_of : Q;
  spam_detections : list (string * nat)
}.

Definition spam_step (text : jsstring) (st : list (string * nat) * Q)
    (pattern : Pattern) : list (string * nat) * Q :=
  let matches := matches_of pattern text in
  match matches with
  | [] => st
  | _ =>
      (fst st ++ [(p_type pattern, length matches)],
       snd st + p_weight pattern * Qmin (count matches) 3)
  end.

Definition detectSpam (text : jsstring) : SpamResult :=
  let st := fold_left (spam_step text) SPAM_PATTERNS ([], 0) in
  {| spam_score_of := Qmin (snd st) 1.0; spam_detections := fst st |}.

Record LinkResult : Type := {
  link_score_of : Q;
  link_urls : nat;
  link_domains : nat
}.

(** [/https?:\/\/[^\s]+/gi] *)
Definition url_regex : regex :=
  Seq https_scheme (Rep 1 None true (none_of [is_space])).

(** [/\b(?:www\.)?[a-zA-Z0-9][a-zA-Z0-9-]{1,61}[a-zA-Z0-9]\.[a-zA-Z]{2,}/gi] *)
Definition domain_regex : regex :=
  seqs [WordB; opt (lit "www.");
        any_of [lower_az; upper_az; is_digit];
        Rep 1 (Some 61%nat) true (any_of [lower_az; upper_az; is_digit; one_of "-"]);
        any_of [lower_az; upper_az; is_digit];
        chr "."; Rep 2 None true (any_of [lower_az; upper_az])].

Definition suspiciousDomains : list jsstring :=
  map js ["bit.ly"; "tinyurl"; "t.co"; "goo.gl"]%string.

Definition detectLinks (text : jsstring) : LinkResult :=
  let urls := match_all true url_regex text in
  let domains := match_all true domain_regex text in
  let linkRiskScore := 0 + count urls * 0.3 + count domains * 0.1 in
  let hasSuspicious :=
    existsb (fun url => existsb (fun dom => includes url dom) suspiciousDomains)
      urls in
  let linkRiskScore :=
    if hasSuspicious then linkRiskScore + 0.4 else linkRiskScore in
  {| link_score_of := Qmin linkRiskScore 1.0;
     link_urls := length urls;
     link_domains := length domains |}.

(** *** Toxicity *)

Definition const_repl (s : string) : option jsstring -> jsstring :=
  fun _ => js s.

(** ['$1$1'] *)
Definition twice_cap1 : option jsstring -> jsstring :=
  fun c => match c with Some w => w ++ w | None => [] end.

Definition replace_char (c : ascii) (by_ : string) (s : jsstring) : jsstring :=
  replace_all false (chr c) (const_repl by_) s.

Definition normalizeTextForDetection (text : jsstring) : jsstring :=
  match text with
  | [] => []
  | _ =>
      let normalized := toLowerCase text in
      let normalized :=
        replace_all false (any_of [is_space; one_of "-_.*+#@!"]) (const_repl "")
          normalized in
      let normalized := replace_char "0" "o" normalized in
      let normalized := replace_char "1" "i" normalized in
      let normalized := replace_char "3" "e" normalized in
      let normalized := replace_char "4" "a" normalized in
      let normalized := replace_char "5" "s" normalized in
      let normalized := replace_char "7" "t" normalized in
      let normalized := replace_char "8" "b" normalized in
      let normalized := replace_char "9" "g" normalized in
      let normalized := replace_char "$" "s" normalized in
      let normalized := replace_char "!" "i" normalized in
      let normalized := replace_char "@" "a" normalized in
      replace_all false (Seq (Group dot) (Rep 2 None true BackRef)) twice_cap1
        normalized
  end.

Definition profanityPatterns : list jsstring :=
  map js
    [ "masturbat"; "mastrbat"; "mstrbat";
      "nigger"; "nigga"; "niga"; "ngga"; "nger";
      "bastard"; "bastrd"; "bstrd";
      "violence"; "vlnce"; "violnc";
      "suicide"; "suicid"; "sucide";
      "murder"; "murdr"; "mrdr";
      "orgasm"; "orgsm"; "orgas";
      "erotic"; "erotc"; "erotik";
      "porn"; "prn"; "p0rn"; "pornn";
      "naked"; "nakd"; "nked";
      "retard"; "retrd"; "rtard"; "retad";
      "bitch"; "bich"; "bitchh"; "btch";
      "pussy"; "puss"; "pusy"; "pssy";
      "whore"; "whor"; "hore"; "whoar";
      "abuse"; "abus"; "abse";
      "stupid"; "stpid"; "stupd";
      "idiot"; "idot"; "idit";
      "moron"; "mron"; "morrn";
      "fuck"; "fuk"; "fcuk"; "fuc"; "fuq";
      "shit"; "sht"; "shyt"; "shitt";
      "damn"; "damm"; "dam";
      "crap"; "crp"; "krap";
      "piss"; "pis"; "pss";
      "dick"; "dik"; "dck"; "dic";
      "cock"; "cok"; "kok"; "cokc";
      "cunt"; "cnt"; "kunt";
      "slut"; "slt"; "slutt";
      "nude"; "nud"; "nudee";
      "kill"; "kil"; "kll";
      "hate"; "hat"; "hte";
      "rape"; "rap"; "rpe";
      "dumb"; "dmb"; "dum";
      "ass"; "arse";
      "sex"; "sx"; "sexx"; "seks" ]%string.

(** [/[a-z0-9]/.test(x)] where [x] is a string of at most one code unit. *)
Definition alnum_test (x : jsstring) : bool :=
  regex_test false (any_of [lower_az; is_digit]) x.

(** [s[i]] read as a string: a missing element is [undefined], which
    [RegExp.prototype.test] turns into the text "undefined". *)
Definition char_at (s : jsstring) (i : nat) : jsstring :=
  match nth_error s i with
  | Some c => [c]
  | None => js "undefined"
  end.

(** The body of [for (const pattern of profanityPatterns)]; [None] means that
    the loop goes on, [Some b] that the function returns [b]. *)
Definition check_pattern (normalizedText pattern : jsstring) : option bool :=
  if (length pattern <? 2)%nat then None
  else
    match index_of normalizedText pattern with
    | None => None
    | Some index =>
        let before : jsstring :=
          if (0 <? index)%nat then char_at normalizedText (index - 1) else [] in
        let after : jsstring :=
          if (index + length pattern <? length normalizedText)%nat
          then char_at normalizedText (index + length pattern) else [] in
        if (index =? 0)%nat
           || (index + length pattern =? length normalizedText)%nat
           || negb (alnum_test before)
           || negb (alnum_test after)
        then Some true
        else if (length pattern <=? 3)%nat then
          let context :=
            substring (Nat.max 0 (index - 2))
              (Nat.min (length normalizedText) (index + length pattern + 2))
              normalizedText in
          if jsstring_eqb context pattern
             || (startsWith context pattern
                 && negb (alnum_test (char_at context (length pattern))))
             || (endsWith context pattern
                 && negb (alnum_test
                            (if (length pattern <? length context)%nat
                             then char_at context
                                    (length context - length pattern - 1)
                             else js "undefined")))
          then Some true
          else None
        else Some true
    end.

Fixpoint check_patterns (normalizedText : jsstring) (patterns : list jsstring)
  : bool :=
  match patterns with
  | [] => false
  | pattern :: more =>
      match check_pattern normalizedText pattern with
      | Some b => b
      | None => check_patterns normalizedText more
      end
  end.

Definition checkProfanityPatterns (normalizedText : jsstring) : bool :=
  if (length normalizedText <? 2)%nat then false
  else check_patterns normalizedText profanityPatterns.

Record ToxicityResult : Type := {
  tox_score_of : Q;
  tox_isProfane : bool
}.

Definition commonProfanity : list jsstring :=
  map js ["fuck"; "shit"; "damn"; "ass"; "bitch"; "sex"; "porn"; "kill";
          "hate"; "abuse"]%string.

(** Signal 1: the dictionary, under its [try]/[catch]. *)
Definition dictionary_signal (h : Host) (text : jsstring) : completion bool :=
  try_catch (isProfane h text) (Normal false).

(** Signal 2: the normalised text against the pattern list. *)
Definition hasObfuscatedProfanity (text : jsstring) : bool :=
  checkProfanityPatterns (normalizeTextForDetection text).

(** Signal 3: the word list against the lower-cased text. *)
Definition hasDirectProfanity (text : jsstring) : bool :=
  let lowerText := toLowerCase text in
  existsb (fun word => regex_test true (word_regex word) lowerText)
    commonProfanity.

Definition detectToxicity (h : Host) (text : jsstring)
  : completion ToxicityResult :=
  match text with
  | [] => Normal {| tox_score_of := 0; tox_isProfane := false |}
  | _ =>
      isProfane <- dictionary_signal h text ;;
      if isProfane || hasObfuscatedProfanity text || hasDirectProfanity text
      then Normal {| tox_score_of := 1.0; tox_isProfane := true |}
      else Normal {| tox_score_of := 0; tox_isProfane := false |}
  end.

(** ** The trust score *)

(** Milliseconds in a day: [1000 * 60 * 60 * 24]. *)
Definition ms_per_day : Z := 1000 * 60 * 60 * 24.

(** [(Date.now() - new Date(user.createdAt).getTime()) / ms_per_day] *)
Definition accountAgeDays (now created : Z) : Q :=
  inject_Z (now - created) / inject_Z ms_per_day.

(** [x > y] on numbers. *)
Definition gt (x y : Q) : bool := negb (Qle_bool x y).

(** [x < y] on numbers. *)
Definition lt (x y : Q) : bool := negb (Qle_bool y x).

(** The body of the [try] block of [getUserTrustScore], once the lookup has
    answered with [user]. *)
Definition trust_of_user (now : Z) (user : option UserRecord) : Q :=
  let trustScore := 0.7 in
  let trustScore :=
    match user with
    | Some {| createdAt := Some created |} =>
        let age := accountAgeDays now created in
        let trustScore := if gt age 30 then trustScore + 0.1 else trustScore in
        if gt age 90 then trustScore + 0.1 else trustScore
    | _ => trustScore
    end in
  Qmin trustScore 1.0.

Definition getUserTrustScore (h : Host) (userId : jsval) : completion Q :=
  try_catch
    (user <- findById h userId ;;
     Normal (trust_of_user (Date_now h) user))
    (Normal 0.5).

(** ** The decision engine *)

Inductive Status : Type := ALLOW | SOFT_BLOCK | QUARANTINE | REJECT.

Inductive Flag : Type :=
| phi_detected | spam_detected | sales_pitch | toxicity | suspicious_links.

Record ScoreVector : Type := {
  phi_score : Q;
  spam_score : Q;
  sales_pitch_score : Q;
  toxicity_score : Q;
  link_risk_score : Q;
  user_trust_score : Q
}.

Record DetectedSpan : Type := {
  span_text : jsstring;
  span_type : string;
  span_subtype : string;
  span_start : Z;
  span_end : Z
}.

(** The object returned by [scan].  A field that the object does not have is
    [None]: the result for invalid input has a [reason] and nothing else
    beyond the first four fields, the result of a completed scan has a
    [timestamp] and a [context]. *)
Record ModerationResult : Type := {
  status : Status;
  scores : ScoreVector;
  flags : list Flag;
  detectedSpans : list DetectedSpan;
  reason : option string;
  timestamp : option jsstring;
  context : option jsval
}.

(** The argument of [scan]; a property that the caller leaves out is
    [JUndefined]. *)
Record ModerationInput : Type := {
  in_text : jsval;
  in_userId : jsval;
  in_context : jsval
}.

Definition spans_of (text : jsstring) (detections : list Detection)
  : list DetectedSpan :=
  flat_map
    (fun det =>
       map (fun mtch =>
              {| span_text := mtch;
                 span_type := "phi";
                 span_subtype := d_type det;
                 span_start := indexOf text mtch;
                 span_end := indexOf text mtch + Z.of_nat (length mtch) |})
         (d_matches det))
    detections.

Definition flags_of (sc : ScoreVector) : list Flag :=
  (if gt (phi_score sc) 0.3 then [phi_detected] else [])
  ++ (if gt (spam_score sc) 0.5 then [spam_detected] else [])
  ++ (if gt (sales_pitch_score sc) 0.6 then [sales_pitch] else [])
  ++ (if gt (toxicity_score sc) 0 then [toxicity] else [])
  ++ (if gt (link_risk_score sc) 0.6 then [suspicious_links] else []).

(** The [if]/[else if] chain of [scan], starting from [status = 'ALLOW']. *)
Definition status_of (sc : ScoreVector) : Status :=
  if gt (toxicity_score sc) 0 then REJECT
  else if gt (phi_score sc) 0.5 then QUARANTINE
  else if gt (sales_pitch_score sc) 0.7 && lt (user_trust_score sc) 0.5
  then REJECT
  else if gt (spam_score sc) 0.7 then QUARANTINE
  else if (gt (phi_score sc) 0.2 && gt (link_risk_score sc) 0.4)
          || (gt (spam_score sc) 0.4 && gt (sales_pitch_score sc) 0.5)
  then QUARANTINE
  else if gt (phi_score sc) 0.2
          || gt (spam_score sc) 0.3
          || gt (link_risk_score sc) 0.5
  then SOFT_BLOCK
  else ALLOW.

Definition zero_scores : ScoreVector :=
  {| phi_score := 0; spam_score := 0; sales_pitch_score := 0;
     toxicity_score := 0; link_risk_score := 0; user_trust_score := 0 |}.

Definition invalid_input_result : ModerationResult :=
  {| status := REJECT;
     scores := zero_scores;
     flags := [];
     detectedSpans := [];
     reason := Some "Invalid input"%string;
     timestamp := None;
     context := None |}.

(** The default of the parameter [context = {}]. *)
Definition context_or_default (c : jsval) : jsval :=
  match c with
  | JUndefined => JObj []
  | _ => c
  end.

(** The score vector of a scan of the text [text]. *)
Definition scores_of (h : Host) (text : jsstring) (userId : jsval)
  : completion (ScoreVector * PhiResult) :=
  phiResult <- detectPHI h text ;;
  let salesResult := detectSalesPitch text in
  let spamResult := detectSpam text in
  let linkResult := detectLinks text in
  toxicityResult <- detectToxicity h text ;;
  userTrustScore <-
    (if truthy userId then getUserTrustScore h userId else Normal 0.5) ;;
  Normal ({| phi_score := phi_score_of phiResult;
             spam_score := spam_score_of spamResult;
             sales_pitch_score := sales_score_of salesResult;
             toxicity_score := tox_score_of toxicityResult;
             link_risk_score := link_score_of linkResult;
             user_trust_score := userTrustScore |},
          phiResult).

(** [scan] once the guard on [text] has let a string through. *)
Definition scan_text (h : Host) (text : jsstring) (userId ctx : jsval)
  : completion ModerationResult :=
  r <- scores_of h text userId ;;
  let sc := fst r in
  Normal {| status := status_of sc;
            scores := sc;
            flags := flags_of sc;
            detectedSpans := spans_of text (phi_detections (snd r));
            reason := None;
            timestamp := Some (Date_toISOString h);
            context := Some (context_or_default ctx) |}.

(** [async function scan({ text, userId, context = {} })]: the guard
    [!text || typeof text !== 'string'] first.  Past the guard [text] is a
    string; the last branch is never taken. *)
Definition scan (h : Host) (input : ModerationInput)
  : completion ModerationResult :=
  let text := in_text input in
  if negb (truthy text) || negb (typeof_string text)
  then Normal invalid_input_result
  else
    match text with
    | JStr text => scan_text h text (in_userId input) (in_context input)
    | _ => Throw
    end.

(** ** The sanitizer ([src/utils/moderation.js]) *)

(** [/<\s*(script|style)[^>]*>[\s\S]*?<\s*\/\s*\1>/gi] *)
Definition script_block_regex : regex :=
  seqs [chr "<"; star space; Group (Alt (lit "script") (lit "style"));
        star (none_of [is_char ">"]); chr ">";
        Rep 0 None false (any_of [is_space; fun c => negb (is_space c)]);
        chr "<"; star space; chr "/"; star space; BackRef; chr ">"].

(** [/<[^>]*>?/g] *)
Definition tag_regex : regex :=
  seqs [chr "<"; star (none_of [is_char ">"]); opt (chr ">")].

Definition sanitizeInput (text : jsstring) : jsstring :=
  let cleaned := replace_all true script_block_regex (const_repl "") text in
  let cleaned := replace_all false tag_regex (const_repl "") cleaned in
  trim cleaned.

(** ** The pre-submission checks ([src/utils/moderation.js]) *)

(** [s.match(re)] for a pattern without the [g] flag and without groups: the
    text of the leftmost match, [None] for [null]. *)
Fixpoint match_first (icase : bool) (r : regex) (before : option ascii)
    (txt : jsstring) : option jsstring :=
  match match_at icase r before txt with
  | Some e => Some (firstn (length txt - length (rest e)) txt)
  | None =>
      match txt with
      | [] => None
      | c :: tl => match_first icase r (Some c) tl
      end
  end.

Record PhiCheck : Type := {
  c_icase : bool;
  c_regex : regex;
  c_reason : string
}.

(** The table [phiPatterns]: the phone, SSN, e-mail and ZIP patterns of the
    scan, without the [g] flag, and a run of nine digits or more. *)
Definition phiPatterns : list PhiCheck :=
  [ {| c_icase := false; c_regex := phone_regex;
       c_reason := "Possible phone number" |};
    {| c_icase := false;
       c_regex := seqs [WordB; times 3 digit; chr "-"; times 2 digit; chr "-";
                        times 4 digit; WordB];
       c_reason := "Possible SSN" |};
    {| c_icase := true;
       c_regex := seqs [WordB; plus (any_of [upper_az; is_digit; one_of "._%+-"]);
                        chr "@"; plus (any_of [upper_az; is_digit; one_of ".-"]);
                        chr "."; Rep 2 None true (any_of [upper_az]); WordB];
       c_reason := "Possible email address" |};
    {| c_icase := false;
       c_regex := seqs [WordB; times 5 digit;
                        opt (Seq (chr "-") (times 4 digit)); WordB];
       c_reason := "Possible ZIP code or address fragment" |};
    {| c_icase := false;
       c_regex := seqs [WordB; Rep 9 None true digit; WordB];
       c_reason := "Long numeric identifier" |} ].

Definition prohibitedWords : list jsstring :=
  map js ["hate"; "kill"; "violence"; "abuse"]%string.

Definition PROMO_WORDS : list jsstring :=
  map js ["buy now"; "purchase"; "special offer"; "limited time"; "act now";
          "call now"; "dm me"; "message me"; "contact me for"; "for sale";
          "discount"; "deal"; "cheap"; "affordable"; "best price";
          "lowest price"]%string.

Definition SPAM_WORDS : list jsstring :=
  map js ["free"; "win"; "prize"; "congratulations"; "click here"; "visit";
          "check out"; "link in bio"; "subscribe"; "follow for more"]%string.

(** The optional package [leo-profanity]: not installed ([leo] is [null]),
    an object without a [check] function, or its [check]. *)
Inductive LeoProfanity : Type :=
| LeoMissing
| LeoWithoutCheck
| Leo (check : jsstring -> completion bool).

(** [words.filter(w => new RegExp(`\\b${escaped}\\b`, 'i').test(sanitized))].
    The words of the three lists are letters and spaces: the escaping step
    leaves them as they are and every code unit stands for itself. *)
Definition word_hits (words : list jsstring) (sanitized : jsstring)
  : list jsstring :=
  filter (fun w => regex_test true (word_regex w) sanitized) words.

Record PreCheckResult : Type := {
  badWordHits : list jsstring;
  promoHits : list jsstring;
  spamHits : list jsstring;
  phiDetections : list (string * jsstring);   (* type and matches[0] *)
  categories : list string;
  alertRequired : bool
}.

Definition phi_detections_of (sanitized : jsstring) : list (string * jsstring) :=
  flat_map
    (fun p =>
       match match_first (c_icase p) (c_regex p) None sanitized with
       | Some mtch => [(c_reason p, mtch)]
       | None => []
       end)
    phiPatterns.

Definition nonempty {A : Type} (l : list A) : bool :=
  match l with [] => false | _ => true end.

Definition analyzeTextForModeration (leo : LeoProfanity) (text : jsstring)
  : completion PreCheckResult :=
  let sanitized := sanitizeInput text in
  badWordHits <-
    match leo with
    | Leo check =>
        profane <- check sanitized ;;
        Normal (if profane : bool then [js "profane"] else [])
    | LeoWithoutCheck => Normal []
    | LeoMissing => Normal (word_hits prohibitedWords sanitized)
    end ;;
  let promoHits := word_hits PROMO_WORDS sanitized in
  let spamHits := word_hits SPAM_WORDS sanitized in
  let phiDetections := phi_detections_of sanitized in
  let categories :=
    (if nonempty badWordHits then ["bad_words"%string] else [])
    ++ (if nonempty promoHits then ["promotion"%string] else [])
    ++ (if nonempty spamHits then ["spam"%string] else [])
    ++ (if nonempty phiDetections then ["phi"%string] else []) in
  Normal {| badWordHits := badWordHits;
            promoHits := promoHits;
            spamHits := spamHits;
            phiDetections := phiDetections;
            categories := categories;
            alertRequired := nonempty categories |}.

Record PhiVerdict : Type := {
  blocked : bool;
  blocked_reason : option string
}.

Definition phi_keywords : list jsstring :=
  map js ["street"; "st."; "road"; "rd."; "avenue"; "ave";
          "medical record"]%string.

(** The loop [for (const pattern of phiPatterns)] of [checkForPHI]: the
    reason of the first pattern that matches. *)
Fixpoint first_phi_pattern (patterns : list PhiCheck) (sanitized : jsstring)
  : option string :=
  match patterns with
  | [] => None
  | pattern :: more =>
      if regex_test (c_icase pattern) (c_regex pattern) sanitized
      then Some (c_reason pattern)
      else first_phi_pattern more sanitized
  end.

Definition checkForPHI (text : jsstring) : PhiVerdict :=
  let sanitized := sanitizeInput text in
  let lower := toLowerCase sanitized in
  match first_phi_pattern phiPatterns sanitized with
  | Some why => {| blocked := true; blocked_reason := Some why |}
  | None =>
      if existsb (fun k => includes lower k) phi_keywords
      then {| blocked := true;
              blocked_reason := Some "Possible address or record identifier"%string |}
      else {| blocked := false; blocked_reason := None |}
  end.

Record WordVerdict : Type := {
  w_blocked : bool;
  w_word : option jsstring
}.

(** [checkForProhibitedWords]: the first prohibited word found in the
    sanitized text (the [reason] of the result quotes that word). *)
Definition checkForProhibitedWords (text : jsstring) : WordVerdict :=
  let sanitized := sanitizeInput text in
  match find (fun word => regex_test true (word_regex word) sanitized)
          prohibitedWords with
  | Some word => {| w_blocked := true; w_word := Some word |}
  | None => {| w_blocked := false; w_word := None |}
  end.

(** * Vocabulary of the properties *)

Local Open Scope Q_scope.

(** What a continuation-passing matcher owes its caller: if it answers, the
    continuation answered at a position that is not before the start. *)
Definition forward (f : cont -> cont) : Prop :=
  forall (k : cont) (s e : mstate),
    f k s = Some e ->
    exists y, k y = Some e /\ (length (rest y) <= length (rest s))%nat.

(** A score in range. *)
Definition in_unit (q : Q) : Prop := 0 <= q /\ q <= 1.

Definition scores_in_unit (sc : ScoreVector) : Prop :=
  in_unit (phi_score sc) /\ in_unit (spam_score sc)
  /\ in_unit (sales_pitch_score sc) /\ in_unit (toxicity_score sc)
  /\ in_unit (link_risk_score sc) /\ in_unit (user_trust_score sc).

(** The decision cascade as the specification words it: an ordered list of
    rules, the first whose condition holds gives the status, and [ALLOW]
    when none holds. *)
Definition Rule : Type := ((ScoreVector -> bool) * Status)%type.

Definition cascade_rules : list Rule :=
  [ (fun sc => gt (toxicity_score sc) 0, REJECT);
    (fun sc => gt (phi_score sc) 0.5, QUARANTINE);
    (fun sc => gt (sales_pitch_score sc) 0.7 && lt (user_trust_score sc) 0.5,
     REJECT);
    (fun sc => gt (spam_score sc) 0.7, QUARANTINE);
    (fun sc => (gt (phi_score sc) 0.2 && gt (link_risk_score sc) 0.4)
               || (gt (spam_score sc) 0.4 && gt (sales_pitch_score sc) 0.5),
     QUARANTINE);
    (fun sc => gt (phi_score sc) 0.2 || gt (spam_score sc) 0.3
               || gt (link_risk_score sc) 0.5,
     SOFT_BLOCK) ].

Fixpoint first_match (rules : list Rule) (sc : ScoreVector) : Status :=
  match rules with
  | [] => ALLOW
  | (condition, st) :: more =>
      if condition sc then st else first_match more sc
  end.

Definition cascade (sc : ScoreVector) : Status := first_match cascade_rules sc.

(** The trust score as the specification words it: base 0.7, plus 0.1 for an
    account older than 30 days, plus a further 0.1 when older than 90 days,
    capped at 1. *)
Definition older_than (days now created : Z) : bool :=
  (days * ms_per_day <? now - created)%Z.

Definition trust_spec (now created : Z) : Q :=
  Qmin (0.7 + (if older_than 30 now created then 0.1 else 0)
            + (if older_than 90 now created then 0.1 else 0)) 1.

(** The host of an installation without the optional packages: the two
    fallbacks of the source stand in for them. *)
Definition fallback_host (lookup : jsval -> completion (option UserRecord))
    (now : Z) : Host :=
  {| isValidPhoneNumber := fallback_isValidPhoneNumber;
     isProfane := fallback_isProfane;
     findById := lookup;
     Date_now := now;
     Date_toISOString := js "2026-01-01T00:00:00.000Z" |}.

(** Three user stores: one that fails, one where nobody is registered, one
    where everybody registered at time 0. *)
Definition failing_lookup (_ : jsval) : completion (option UserRecord) := Throw.
Definition empty_lookup (_ : jsval) : completion (option UserRecord) :=
  Normal None.
Definition epoch_lookup (_ : jsval) : completion (option UserRecord) :=
  Normal (Some {| createdAt := Some 0%Z |}).

Definition text_input (text : string) (userId ctx : jsval) : ModerationInput :=
  {| in_text := JStr (js text); in_userId := userId; in_context := ctx |}.

(** The text of the phone-number example. *)
Definition call_me : jsstring := js "Call me at 555-123-4567".

(** The last code unit of a string, if any. *)
Fixpoint last_char (s : jsstring) : option ascii :=
  match s with
  | [] => None
  | [c] => Some c
  | _ :: s' => last_char s'
  end.

Definition not_word (c : option ascii) : Prop :=
  match c with Some x => is_word x = false | None => True end.

(** [word] stands alone in [s], as it is written: the occurrence is neither
    preceded nor followed by a word character. *)
Definition stands_alone (word s : jsstring) : Prop :=
  exists pre post,
    s = pre ++ word ++ post
    /\ not_word (last_char pre)
    /\ not_word (hd_error post).

(** [text] contains [word] as a standalone word, in any letter case: the
    occurrence is neither preceded nor followed by a word character. *)
Definition standalone_word (word text : jsstring) : Prop :=
  exists pre w post,
    text = pre ++ w ++ post
    /\ toLowerCase w = word
    /\ not_word (last_char pre)
    /\ not_word (hd_error post).

(** A fact about every code unit, checked on the 256 of them. *)
Ltac all_chars c :=
  destruct c as [[] [] [] [] [] [] [] []]; vm_compute; try reflexivity;
  try discriminate; auto.

(** A matcher that asks its continuation only about positions that are not
    before its own. *)
Definition local (f : cont -> cont) : Prop :=
  forall (k k' : cont) (s : mstate),
    (forall y, (length (rest y) <= length (rest s))%nat -> k y = k' y) ->
    f k s = f k' s.

(** The validity check as [detectPHI] reads it: an exception counts as a
    refusal. *)
Definition validated (h : Host) (phone : jsstring) : bool :=
  match isValidPhoneNumber h phone with
  | Normal ok => ok
  | Throw => false
  end.

(** The total that the pattern table alone gives to a text. *)
Definition table_total (text : jsstring) : Q :=
  snd (fold_left (phi_step text) PHI_PATTERNS ([], 0)).

(** The score vector that [scan] assembles from the results of the
    detectors and the trust score. *)
Definition assemble (text : jsstring) (phi : PhiResult) (tox : ToxicityResult)
    (trust : Q) : ScoreVector :=
  {| phi_score := phi_score_of phi;
     spam_score := spam_score_of (detectSpam text);
     sales_pitch_score := sales_score_of (detectSalesPitch text);
     toxicity_score := tox_score_of tox;
     link_risk_score := link_score_of (detectLinks text);
     user_trust_score := trust |}.

(** [w] occurs in [s]. *)
Definition infix (w s : jsstring) : Prop :=
  exists pre post, s = pre ++ w ++ post.

(** The characters that the normalisation removes:
    [[\s\-_\.\*\+\#\@\!]]. *)
Definition is_separator (c : ascii) : bool :=
  existsb (fun p : ascii -> bool => p c) [is_space; one_of "-_.*+#@!"].

Definition strip_separators (s : jsstring) : jsstring :=
  filter (fun c => negb (is_separator c)) s.

(** The detections that the pattern table of [detectPHI] yields, in table
    order, and those that the validation pass appends. *)
Definition table_detections (text : jsstring) : list Detection :=
  flat_map
    (fun p =>
       match matches_of p text with
       | [] => []
       | ms => [ {| d_type := p_type p; d_matches := ms;
                    d_weight := p_weight p |} ]
       end)
    PHI_PATTERNS.

Definition validated_detections (h : Host) (text : jsstring) : list Detection :=
  map (fun phone => {| d_type := "validated_phone"; d_matches := [phone];
                       d_weight := 0.9 |})
    (filter (validated h) (match_all false phone_regex text)).

Definition not_space (c : option ascii) : Prop :=
  match c with Some x => is_space x = false | None => True end.

(** A string that [trim] leaves alone: it neither starts nor ends with white
    space. *)
Definition trimmed (s : jsstring) : Prop :=
  not_space (hd_error s) /\ not_space (last_char s).

(** A user store with two accounts: "old", created at time 0, and every
    other id, created 50 days later. *)
Definition two_user_lookup (userId : jsval) : completion (option UserRecord) :=
  match userId with
  | JStr s =>
      if jsstring_eqb s (js "old")
      then Normal (Some {| createdAt := Some 0%Z |})
      else Normal (Some {| createdAt := Some (50 * ms_per_day)%Z |})
  | _ => Normal None
  end.

(** * Properties *)

(** ** Code units *)

Lemma lower_char_word (c : ascii) : is_word (lower_char c) = is_word c.
Proof. all_chars c. Qed.

Lemma lower_char_idem (c : ascii) : lower_char (lower_char c) = lower_char c.
Proof. all_chars c. Qed.

Lemma upper_char_lt (c : ascii) :
  upper_char c = "<"%char -> c = "<"%char.
Proof. all_chars c. Qed.

Lemma lower_char_lt (c : ascii) :
  lower_char c = "<"%char -> c = "<"%char.
Proof. all_chars c. Qed.

Lemma is_char_true (a c : ascii) : is_char a c = true <-> a = c.
Proof. unfold is_char. apply Ascii.eqb_eq. Qed.

Lemma is_char_refl (a : ascii) : is_char a a = true.
Proof. apply is_char_true. reflexivity. Qed.

(** ** The matcher reads forward *)

Lemma read_back_length (icase : bool) (w : jsstring) :
  forall s y, read_back icase w s = Some y ->
              (length (rest y) <= length (rest s))%nat.
Proof.
  induction w as [|x w IH]; simpl; intros s y H.
  - injection H as <-. lia.
  - destruct (rest s) as [|c tl] eqn:E; [discriminate|].
    destruct (Ascii.eqb _ _); [|discriminate].
    apply IH in H. simpl in H |- *. lia.
Qed.

Lemma rep_forward (step : cont -> cont) (greedy : bool) :
  forward step ->
  forall max min, forward (rep step max min greedy).
Proof.
  intros Hstep max.
  induction max as [|max IH]; intros min k s e H; simpl in H.
  - exists s. split; [assumption | lia].
  - set (d := fun y : mstate =>
                if (min =? 0)%nat && (length (rest y) =? length (rest s))%nat
                then None else rep step max (pred min) greedy k y) in H.
    assert (Hd : forall e', step d s = Some e' ->
               exists y, k y = Some e' /\
                         (length (rest y) <= length (rest s))%nat).
    { intros e' He'. apply Hstep in He'. destruct He' as (y & Hy & Hlen).
      unfold d in Hy.
      destruct ((min =? 0)%nat && _); [discriminate|].
      apply IH in Hy. destruct Hy as (z & Hz & Hlen').
      exists z. split; [assumption | lia]. }
    destruct (0 <? min)%nat.
    + apply Hd. assumption.
    + destruct greedy.
      * destruct (step d s) as [e'|] eqn:E.
        -- injection H as <-. apply Hd. reflexivity.
        -- exists s. split; [assumption | lia].
      * destruct (k s) as [e'|] eqn:E.
        -- injection H as <-. exists s. split; [assumption | lia].
        -- apply Hd. assumption.
Qed.

Lemma m_forward (icase : bool) (r : regex) : forward (m icase r).
Proof.
  induction r as [|invert p|r1 IH1 r2 IH2|r1 IH1 r2 IH2|lo hi greedy r IH
                 |r IH| |];
    intros k s e H; simpl in H.
  - exists s. split; [assumption | lia].
  - destruct (rest s) as [|c tl] eqn:E; [discriminate|].
    destruct (xorb _ _); [|discriminate].
    exists (advance s c tl). split; [assumption | simpl; lia].
  - apply IH1 in H. destruct H as (y & Hy & Hlen).
    apply IH2 in Hy. destruct Hy as (z & Hz & Hlen').
    exists z. split; [assumption | lia].
  - destruct (m icase r1 k s) as [e'|] eqn:E.
    + injection H as <-. apply IH1. assumption.
    + apply IH2. assumption.
  - exact (rep_forward _ greedy IH _ _ _ _ _ H).
  - apply IH in H. destruct H as (y & Hy & Hlen).
    eexists. split; [exact Hy | simpl; lia].
  - destruct (cap1 s) as [w|].
    + destruct (read_back icase w s) as [y|] eqn:E; [|discriminate].
      exists y. split; [assumption | eapply read_back_length; eassumption].
    + exists s. split; [assumption | lia].
  - destruct (at_word_boundary s); [|discriminate].
    exists s. split; [assumption | lia].
Qed.

(** A match ends inside the text it started on. *)
Lemma match_at_length (icase : bool) (r : regex) (before : option ascii)
    (txt : jsstring) (e : mstate) :
  match_at icase r before txt = Some e ->
  (length (rest e) <= length txt)%nat.
Proof.
  unfold match_at. intros H. apply m_forward in H.
  destruct H as (y & Hy & Hlen). injection Hy as <-. exact Hlen.
Qed.

(** A pattern that begins with a literal matches only where that literal
    stands, and its match is not empty. *)
Lemma match_at_first_char (icase : bool) (a : ascii) (r : regex)
    (before : option ascii) (txt : jsstring) (e : mstate) :
  match_at icase (Seq (chr a) r) before txt = Some e ->
  exists c tl, txt = c :: tl /\ class_has icase (is_char a) c = true
               /\ (length (rest e) <= length tl)%nat.
Proof.
  unfold match_at. simpl. destruct txt as [|c tl]; [discriminate|].
  destruct (class_has icase (is_char a) c) eqn:E; [|discriminate].
  intros H. apply m_forward in H. destruct H as (y & Hy & Hlen).
  injection Hy as <-. exists c, tl. split; [reflexivity|]. split; [exact E|].
  exact Hlen.
Qed.

Lemma class_has_lt (icase : bool) (c : ascii) :
  class_has icase (is_char "<") c = true -> c = "<"%char.
Proof.
  unfold class_has. destruct icase.
  - rewrite !orb_true_iff, !is_char_true.
    intros [[H|H]|H]; auto using upper_char_lt, lower_char_lt.
  - rewrite is_char_true. auto.
Qed.

(** A greedy quantifier that may stop at once never makes a match fail. *)
Lemma rep_greedy_some (step : cont -> cont) (max : nat) (k : cont) (s : mstate) :
  k s <> None -> rep step max 0 true k s <> None.
Proof.
  destruct max as [|max]; simpl; [auto|].
  intros Hk. destruct (step _ s); [discriminate | assumption].
Qed.
(** ** Unbounded quantifiers *)

Lemma read_back_rest (icase : bool) (w : jsstring) :
  forall s y, read_back icase w s = Some y -> cap1 y = cap1 s.
Proof.
  induction w as [|x w IH]; cbn [read_back]; intros s y H.
  - injection H as <-. reflexivity.
  - destruct (rest s) as [|c tl]; [discriminate|].
    destruct (Ascii.eqb _ _); [|discriminate].
    apply IH in H. exact H.
Qed.

Lemma rep_local (step : cont -> cont) (greedy : bool) :
  local step -> forall max min, local (rep step max min greedy).
Proof.
  intros Hstep max.
  induction max as [|max IH]; intros min k k' s Hk; cbn [rep].
  - apply Hk. lia.
  - assert (Hd : step
                   (fun y =>
                      if (min =? 0)%nat
                         && (length (rest y) =? length (rest s))%nat
                      then None else rep step max (pred min) greedy k y) s
                 = step
                     (fun y =>
                        if (min =? 0)%nat
                           && (length (rest y) =? length (rest s))%nat
                        then None else rep step max (pred min) greedy k' y) s).
    { apply Hstep. intros y Hy.
      destruct ((min =? 0)%nat && _); [reflexivity|].
      apply IH. intros z Hz. apply Hk. lia. }
    rewrite Hd, (Hk s) by lia. reflexivity.
Qed.

Lemma m_local (icase : bool) (r : regex) : local (m icase r).
Proof.
  induction r as [|invert p|r1 IH1 r2 IH2|r1 IH1 r2 IH2|lo hi greedy r IH
                 |r IH| |];
    intros k k' s Hk; cbn [m].
  - apply Hk. lia.
  - destruct (rest s) as [|c tl] eqn:E; [reflexivity|].
    destruct (xorb _ _); [|reflexivity]. apply Hk. cbn. lia.
  - apply IH1. intros y Hy. apply IH2. intros z Hz. apply Hk. lia.
  - rewrite (IH1 k k' s Hk), (IH2 k k' s Hk). reflexivity.
  - apply (rep_local _ greedy IH). exact Hk.
  - apply IH. intros y Hy. apply Hk. cbn. exact Hy.
  - destruct (cap1 s) as [w|]; [|apply Hk; lia].
    destruct (read_back icase w s) as [y|] eqn:E; [|reflexivity].
    apply Hk. eapply read_back_length. exact E.
  - destruct (at_word_boundary s); [|reflexivity]. apply Hk. lia.
Qed.

(** Once the bound of a quantifier exceeds what the text can still feed, one
    more allowed iteration changes nothing. *)
Lemma rep_one_more (step : cont -> cont) (greedy : bool) :
  local step -> forward step ->
  forall max min k s,
    (min + length (rest s) <= max)%nat ->
    rep step (S max) min greedy k s = rep step max min greedy k s.
Proof.
  intros Hloc Hfwd max.
  induction max as [|max IH]; intros min k s Hle.
  - assert (min = 0%nat) by lia. assert (length (rest s) = 0%nat) by lia.
    subst min. cbn [rep Nat.ltb Nat.leb Nat.eqb andb pred].
    assert (Hnone :
              step (fun y =>
                      if (length (rest y) =? length (rest s))%nat
                      then None else k y) s = None).
    { destruct (step _ s) as [e|] eqn:E; [|reflexivity].
      apply Hfwd in E. destruct E as (y & Hy & Hlen).
      replace (length (rest y) =? length (rest s))%nat with true in Hy
        by (symmetry; apply Nat.eqb_eq; lia).
      discriminate. }
    rewrite Hnone. destruct greedy; [reflexivity|]. destruct (k s); reflexivity.
  - cbn [rep].
    assert (Hd : step
                   (fun y =>
                      if (min =? 0)%nat
                         && (length (rest y) =? length (rest s))%nat
                      then None
                      else rep step (S max) (pred min) greedy k y) s
                 = step
                     (fun y =>
                        if (min =? 0)%nat
                           && (length (rest y) =? length (rest s))%nat
                        then None
                        else rep step max (pred min) greedy k y) s).
    { apply Hloc. intros y Hy.
      destruct (min =? 0)%nat eqn:Emin;
        destruct (length (rest y) =? length (rest s))%nat eqn:Elen;
        cbn [andb]; try reflexivity.
      - apply Nat.eqb_eq in Emin. apply Nat.eqb_neq in Elen.
        apply IH. cbn. lia.
      - apply Nat.eqb_neq in Emin. apply IH. lia.
      - apply Nat.eqb_neq in Emin. apply IH. lia. }
    cbn [rep] in Hd. rewrite Hd. reflexivity.
Qed.

(** The bound [lo + n] that stands for "no upper bound" on a text of [n]
    code units is exact: any larger bound gives the same answer. *)
Lemma rep_unbounded (icase : bool) (r : regex) (greedy : bool) (extra lo : nat)
    (k : cont) (s : mstate) :
  rep (m icase r) (lo + length (rest s) + extra) lo greedy k s
  = m icase (Rep lo None greedy r) k s.
Proof.
  cbn [m]. induction extra as [|extra IH].
  - rewrite Nat.add_0_r. reflexivity.
  - rewrite Nat.add_succ_r, <- IH.
    apply rep_one_more; [apply m_local | apply m_forward | lia].
Qed.

(** ** The sanitizer *)

Lemma tag_regex_at_lt (before : option ascii) (tl : jsstring) :
  match_at false tag_regex before ("<"%char :: tl) <> None.
Proof.
  unfold match_at, tag_regex, seqs, star, opt.
  cbn [m rest chr class_has xorb].
  rewrite is_char_refl.
  apply rep_greedy_some. apply rep_greedy_some. discriminate.
Qed.

Lemma const_repl_empty (c : option jsstring) : const_repl "" c = [].
Proof. reflexivity. Qed.

(** Stripping the tags leaves no opening angle bracket. *)
Lemma replace_tag_no_lt (txt : jsstring) :
  forall before skip,
    ~ In "<"%char (replace_from false tag_regex (const_repl "") before txt skip).
Proof.
  induction txt as [|c tl IH]; intros before skip.
  - destruct skip; cbn [replace_from]; [|simpl; tauto].
    destruct (match_at false tag_regex before []); simpl; tauto.
  - destruct skip as [|n]; [|simpl; apply IH].
    cbn [replace_from].
    destruct (match_at false tag_regex before (c :: tl)) as [e|] eqn:E.
    + rewrite const_repl_empty. cbn [app].
      apply match_at_first_char in E.
      destruct E as (c' & tl' & Heq & _ & Hlen). injection Heq as <- <-.
      replace (length (c :: tl) - length (rest e) =? 0)%nat with false
        by (symmetry; apply Nat.eqb_neq; cbn [length]; lia).
      apply IH.
    + intros [Hc|Hin]; [|exact (IH _ _ Hin)].
      subst c. exact (tag_regex_at_lt _ _ E).
Qed.

(** A pattern that begins with an opening angle bracket finds nothing in a
    text without one, so that replacing its matches changes nothing. *)
Lemma replace_without_lt (icase : bool) (r : regex)
    (repl : option jsstring -> jsstring) (txt : jsstring) :
  ~ In "<"%char txt ->
  forall before,
    replace_from icase (Seq (chr "<") r) repl before txt 0 = txt.
Proof.
  induction txt as [|c tl IH]; intros Hno before; cbn [replace_from].
  - destruct (match_at _ _ _ _) as [e|] eqn:E; [|reflexivity].
    apply match_at_first_char in E. destruct E as (? & ? & ? & _). discriminate.
  - destruct (match_at _ _ _ _) as [e|] eqn:E.
    + apply match_at_first_char in E.
      destruct E as (c' & tl' & Heq & Hc & _). injection Heq as <- <-.
      apply class_has_lt in Hc. subst c. exfalso. apply Hno. left. reflexivity.
    + f_equal. apply IH. intros Hin. apply Hno. right. assumption.
Qed.

Lemma trimStart_incl (s : jsstring) (c : ascii) :
  In c (trimStart s) -> In c s.
Proof.
  induction s as [|x s IH]; simpl; [tauto|].
  destruct (is_space x); [right; auto | auto].
Qed.

Lemma trim_incl (s : jsstring) (c : ascii) : In c (trim s) -> In c s.
Proof.
  unfold trim, trimEnd. intros H.
  apply in_rev in H. apply trimStart_incl in H. apply in_rev in H.
  apply trimStart_incl in H. assumption.
Qed.

(** [trimStart] stops at the first code unit that is not a space. *)
Lemma trimStart_fixed (s : jsstring) :
  match s with c :: _ => is_space c = false | [] => True end ->
  trimStart s = s.
Proof. destruct s as [|c s]; simpl; [reflexivity|]. intros ->. reflexivity. Qed.

Lemma trimStart_head (s : jsstring) :
  match trimStart s with c :: _ => is_space c = false | [] => True end.
Proof.
  induction s as [|x s IH]; simpl; [exact I|].
  destruct (is_space x) eqn:E; [exact IH | exact E].
Qed.

Lemma trimStart_idem (s : jsstring) : trimStart (trimStart s) = trimStart s.
Proof. apply trimStart_fixed, trimStart_head. Qed.

Lemma trimEnd_idem (s : jsstring) : trimEnd (trimEnd s) = trimEnd s.
Proof.
  unfold trimEnd. rewrite rev_involutive, trimStart_idem. reflexivity.
Qed.

(** Trimming the end keeps a first code unit that is not a space. *)
Lemma trimStart_snoc (s : jsstring) (c : ascii) :
  is_space c = false -> exists t, trimStart (s ++ [c]) = t ++ [c].
Proof.
  intros Hc. induction s as [|x s IH]; simpl.
  - rewrite Hc. exists []. reflexivity.
  - destruct (is_space x); [exact IH|]. exists (x :: s). reflexivity.
Qed.

Lemma trimEnd_head (s : jsstring) :
  match s with c :: _ => is_space c = false | [] => True end ->
  match trimEnd s with c :: _ => is_space c = false | [] => True end.
Proof.
  destruct s as [|c s]; [intros _; exact I|]. intros Hc.
  unfold trimEnd. simpl rev.
  destruct (trimStart_snoc (rev s) c Hc) as (t & ->).
  rewrite rev_app_distr. simpl. exact Hc.
Qed.

Lemma trim_idem (s : jsstring) : trim (trim s) = trim s.
Proof.
  unfold trim.
  rewrite (trimStart_fixed (trimEnd (trimStart s))).
  - apply trimEnd_idem.
  - apply trimEnd_head, trimStart_head.
Qed.

Lemma sanitizeInput_no_lt (x : jsstring) : ~ In "<"%char (sanitizeInput x).
Proof.
  unfold sanitizeInput, replace_all. intros H. apply trim_incl in H.
  exact (replace_tag_no_lt _ _ _ H).
Qed.

Lemma sanitizeInput_clean (y : jsstring) :
  ~ In "<"%char y -> sanitizeInput y = trim y.
Proof.
  intros Hno. unfold sanitizeInput, replace_all.
  unfold script_block_regex, tag_regex.
  cbn [seqs].
  rewrite (replace_without_lt true _ _ y Hno None).
  rewrite (replace_without_lt false _ _ y Hno None).
  reflexivity.
Qed.

(** C8. The sanitizer is idempotent: for every string [x], sanitizing the
    result of [sanitizeInput x] again (script and style blocks, then every
    tag, then [trim]) gives that same result. *)
Theorem C8_sanitizeInput_idempotent (x : jsstring) :
  sanitizeInput (sanitizeInput x) = sanitizeInput x.
Proof.
  rewrite (sanitizeInput_clean _ (sanitizeInput_no_lt x)).
  unfold sanitizeInput. apply trim_idem.
Qed.


(** ** Scores stay in range *)

Lemma clamp_in_unit (x : Q) : 0 <= x -> in_unit (Qmin x 1.0).
Proof.
  intros Hx. split.
  - apply Q.min_glb; [exact Hx | discriminate].
  - apply Qle_trans with (y := 1.0); [apply Q.le_min_r | discriminate].
Qed.

Lemma count_nonneg {A : Type} (l : list A) : 0 <= count l.
Proof. unfold count, Qle. simpl. lia. Qed.

(** A loop that only ever adds non-negative amounts to its running total. *)
Lemma fold_left_nonneg {A B : Type} (step : A * Q -> B -> A * Q) (l : list B) :
  (forall st b, In b l -> 0 <= snd st -> 0 <= snd (step st b)) ->
  forall st, 0 <= snd st -> 0 <= snd (fold_left step l st).
Proof.
  induction l as [|b l IH]; intros Hstep st Hst; simpl; [exact Hst|].
  apply IH.
  - intros st' b' Hin. apply Hstep. right. exact Hin.
  - apply Hstep; [left; reflexivity | exact Hst].
Qed.

Lemma add_nonneg (x y : Q) : 0 <= x -> 0 <= y -> 0 <= x + y.
Proof. intros Hx Hy. apply (Qplus_le_compat 0 x 0 y Hx Hy). Qed.

Lemma phi_weights_nonneg (p : Pattern) :
  In p PHI_PATTERNS -> 0 <= p_weight p.
Proof.
  unfold PHI_PATTERNS. simpl.
  intros H. repeat (destruct H as [<-|H]; [discriminate|]). contradiction.
Qed.

Lemma spam_weights_nonneg (p : Pattern) :
  In p SPAM_PATTERNS -> 0 <= p_weight p.
Proof.
  unfold SPAM_PATTERNS. simpl.
  intros H. repeat (destruct H as [<-|H]; [discriminate|]). contradiction.
Qed.

Lemma phi_step_nonneg (text : jsstring) (st : phi_state) (p : Pattern) :
  0 <= p_weight p -> 0 <= snd st -> 0 <= snd (phi_step text st p).
Proof.
  intros Hw Hst. unfold phi_step.
  destruct (matches_of p text) as [|x l]; [exact Hst|]. cbn [snd].
  apply add_nonneg; [exact Hst|].
  apply Qmult_le_0_compat; [exact Hw | apply count_nonneg].
Qed.

(** The validation pass always completes: an exception of the validator is
    caught turn by turn. *)
Lemma validate_loop_normal (h : Host) (phones : list jsstring) :
  forall st, 0 <= snd st ->
    exists st', validate_loop h st phones = Normal st' /\ 0 <= snd st'.
Proof.
  induction phones as [|phone more IH]; intros st Hst; cbn [validate_loop].
  - exists st. split; [reflexivity | exact Hst].
  - unfold validate_step.
    destruct (isValidPhoneNumber h phone) as [[|]|]; cbn [bind try_catch].
    + apply IH. cbn [snd]. apply add_nonneg; [exact Hst | discriminate].
    + apply IH. exact Hst.
    + apply IH. exact Hst.
Qed.

Lemma phi_total_normal (h : Host) (text : jsstring) :
  exists st, phi_total h text = Normal st /\ 0 <= snd st.
Proof.
  unfold phi_total.
  assert (H0 : 0 <= snd (fold_left (phi_step text) PHI_PATTERNS ([], 0))).
  { apply fold_left_nonneg; [|discriminate].
    intros st p Hin. apply phi_step_nonneg, phi_weights_nonneg, Hin. }
  destruct (validate_loop_normal h (match_all false phone_regex text) _ H0)
    as (st' & -> & Hst').
  exists st'. split; [reflexivity | exact Hst'].
Qed.

Lemma detectPHI_in_unit (h : Host) (text : jsstring) :
  exists r, detectPHI h text = Normal r /\ in_unit (phi_score_of r).
Proof.
  unfold detectPHI. destruct (phi_total_normal h text) as (st & -> & Hst).
  cbn [bind]. eexists. split; [reflexivity|].
  cbn [phi_score_of]. apply clamp_in_unit, Hst.
Qed.

Lemma detectSalesPitch_in_unit (text : jsstring) :
  in_unit (sales_score_of (detectSalesPitch text)).
Proof.
  unfold detectSalesPitch. cbn [sales_score_of]. apply clamp_in_unit.
  apply fold_left_nonneg; [|discriminate].
  intros st kw _ Hst. destruct (includes _ kw); [|exact Hst].
  cbn [snd]. apply add_nonneg; [exact Hst | discriminate].
Qed.

Lemma detectSpam_in_unit (text : jsstring) :
  in_unit (spam_score_of (detectSpam text)).
Proof.
  unfold detectSpam. cbn [spam_score_of]. apply clamp_in_unit.
  apply fold_left_nonneg; [|discriminate].
  intros st p Hin Hst. unfold spam_step.
  destruct (matches_of p text) as [|x l]; [exact Hst|]. cbn [snd].
  apply add_nonneg; [exact Hst|].
  apply Qmult_le_0_compat; [apply spam_weights_nonneg, Hin|].
  apply Q.min_glb; [apply count_nonneg | discriminate].
Qed.

Lemma detectLinks_in_unit (text : jsstring) :
  in_unit (link_score_of (detectLinks text)).
Proof.
  unfold detectLinks. cbn [link_score_of].
  set (urls := match_all true url_regex text).
  set (domains := match_all true domain_regex text).
  assert (H0 : 0 <= 0 + count urls * 0.3 + count domains * 0.1).
  { apply add_nonneg; [apply add_nonneg; [discriminate|]|];
      (apply Qmult_le_0_compat; [apply count_nonneg | discriminate]). }
  apply clamp_in_unit.
  destruct (existsb _ urls); [|exact H0].
  apply add_nonneg; [exact H0 | discriminate].
Qed.

(** The dictionary signal is [false] when the dictionary throws. *)
Lemma dictionary_signal_normal (h : Host) (text : jsstring) :
  dictionary_signal h text =
  Normal (match isProfane h text with Normal b => b | Throw => false end).
Proof. unfold dictionary_signal. destruct (isProfane h text); reflexivity. Qed.

Lemma detectToxicity_in_unit (h : Host) (text : jsstring) :
  exists r, detectToxicity h text = Normal r /\ in_unit (tox_score_of r).
Proof.
  unfold detectToxicity. destruct text as [|c tl].
  - eexists. split; [reflexivity|]. split; discriminate.
  - rewrite dictionary_signal_normal. cbn [bind].
    destruct (_ || _ || _); eexists; (split; [reflexivity|]); split; discriminate.
Qed.

Lemma trust_of_user_in_unit (now : Z) (user : option UserRecord) :
  in_unit (trust_of_user now user).
Proof.
  unfold trust_of_user. apply clamp_in_unit.
  destruct user as [[[created|]]|]; try discriminate.
  destruct (gt _ 30), (gt _ 90); discriminate.
Qed.

Lemma getUserTrustScore_in_unit (h : Host) (userId : jsval) :
  exists t, getUserTrustScore h userId = Normal t /\ in_unit t.
Proof.
  unfold getUserTrustScore.
  destruct (findById h userId) as [user|]; cbn [bind try_catch].
  - eexists. split; [reflexivity | apply trust_of_user_in_unit].
  - eexists. split; [reflexivity|]. split; discriminate.
Qed.

Lemma trust_choice_normal (h : Host) (userId : jsval) :
  exists t,
    (if truthy userId then getUserTrustScore h userId else Normal 0.5)
    = Normal t.
Proof.
  destruct (truthy userId); [|eexists; reflexivity].
  destruct (getUserTrustScore_in_unit h userId) as (t & -> & _).
  eexists. reflexivity.
Qed.

(** The detectors and the lookup always hand [scan] a score vector. *)
Lemma scores_of_normal (h : Host) (text : jsstring) (userId : jsval) :
  exists sc phi, scores_of h text userId = Normal (sc, phi)
                 /\ scores_in_unit sc.
Proof.
  unfold scores_of.
  destruct (detectPHI_in_unit h text) as (phi & -> & Hphi).
  destruct (detectToxicity_in_unit h text) as (tox & -> & Htox).
  assert (Ht : exists t,
             (if truthy userId then getUserTrustScore h userId else Normal 0.5)
             = Normal t /\ in_unit t).
  { destruct (truthy userId); [apply getUserTrustScore_in_unit|].
    eexists. split; [reflexivity|]. split; discriminate. }
  destruct Ht as (t & -> & Ht). cbn [bind].
  eexists. eexists. split; [reflexivity|].
  repeat split; cbn [phi_score spam_score sales_pitch_score toxicity_score
                     link_risk_score user_trust_score];
    first [ apply Hphi | apply Htox | apply Ht
          | apply detectSpam_in_unit | apply detectSalesPitch_in_unit
          | apply detectLinks_in_unit ].
Qed.

(** [scan] returns a result whatever it is given. *)
Lemma scan_normal (h : Host) (input : ModerationInput) :
  exists r, scan h input = Normal r.
Proof.
  unfold scan.
  destruct (in_text input) as [| |b|n|text|o]; cbn [truthy typeof_string negb orb];
    try (eexists; reflexivity).
  - destruct b; eexists; reflexivity.
  - destruct (negb (n =? 0)%Z); eexists; reflexivity.
  - destruct text as [|c tl]; cbn [negb orb]; [eexists; reflexivity|].
    unfold scan_text.
    destruct (scores_of_normal h (c :: tl) (in_userId input))
      as (sc & phi & -> & _).
    cbn [bind]. eexists. reflexivity.
Qed.

(** C2. For every input of [scan], valid or not, with or without a user id,
    [scan] returns a result whose six scores all lie in the closed interval
    from 0 to 1.  The clamping is done by each detector on its own score, for
    every text, before [scan] assembles the vector, and the trust score is in
    range for every user id. *)
Theorem C2_scan_scores_in_unit (h : Host) (input : ModerationInput) :
  (exists r, scan h input = Normal r /\ scores_in_unit (scores r))
  /\ (forall text,
        (exists r, detectPHI h text = Normal r /\ in_unit (phi_score_of r))
        /\ in_unit (spam_score_of (detectSpam text))
        /\ in_unit (sales_score_of (detectSalesPitch text))
        /\ in_unit (link_score_of (detectLinks text))
        /\ (exists r, detectToxicity h text = Normal r
                       /\ in_unit (tox_score_of r)))
  /\ (forall userId,
        exists t, getUserTrustScore h userId = Normal t /\ in_unit t).
Proof.
  split; [|split].
  - assert (Hz : scores_in_unit zero_scores).
    { repeat split; discriminate. }
    unfold scan.
    destruct (in_text input) as [| |b|n|text|o];
      cbn [truthy typeof_string negb orb];
      try (eexists; split; [reflexivity | exact Hz]).
    + destruct b; eexists; (split; [reflexivity | exact Hz]).
    + destruct (negb (n =? 0)%Z); eexists; (split; [reflexivity | exact Hz]).
    + destruct text as [|c tl]; cbn [negb orb];
        [eexists; split; [reflexivity | exact Hz]|].
      unfold scan_text.
      destruct (scores_of_normal h (c :: tl) (in_userId input))
        as (sc & phi & -> & Hsc).
      cbn [bind]. eexists. split; [reflexivity | exact Hsc].
  - intros text. split; [apply detectPHI_in_unit|].
    split; [apply detectSpam_in_unit|].
    split; [apply detectSalesPitch_in_unit|].
    split; [apply detectLinks_in_unit | apply detectToxicity_in_unit].
  - apply getUserTrustScore_in_unit.
Qed.

(** ** The decision cascade *)

Lemma gt_true (x y : Q) : gt x y = true <-> y < x.
Proof.
  unfold gt. rewrite negb_true_iff. split; intros H.
  - apply Qnot_le_lt. intros Hle. apply Qle_bool_iff in Hle. congruence.
  - destruct (Qle_bool x y) eqn:E; [|reflexivity].
    apply Qle_bool_iff in E. exfalso. exact (Qlt_not_le _ _ H E).
Qed.

Lemma lt_true (x y : Q) : lt x y = true <-> x < y.
Proof. unfold lt. apply (gt_true y x). Qed.

(** The chain of [if]/[else if] is the first-match reading of the rule
    list. *)
Lemma status_of_cascade (sc : ScoreVector) : status_of sc = cascade sc.
Proof. reflexivity. Qed.

Lemma status_of_toxic (sc : ScoreVector) :
  0 < toxicity_score sc -> status_of sc = REJECT.
Proof.
  intros H. apply gt_true in H. unfold status_of. rewrite H. reflexivity.
Qed.

(** What a completed scan returns, in terms of its score vector. *)
Lemma scan_text_result (h : Host) (text : jsstring) (userId ctx : jsval) :
  exists sc phi,
    scores_of h text userId = Normal (sc, phi)
    /\ scan_text h text userId ctx =
       Normal {| status := status_of sc;
                 scores := sc;
                 flags := flags_of sc;
                 detectedSpans := spans_of text (phi_detections phi);
                 reason := None;
                 timestamp := Some (Date_toISOString h);
                 context := Some (context_or_default ctx) |}.
Proof.
  destruct (scores_of_normal h text userId) as (sc & phi & E & _).
  exists sc, phi. split; [exact E|].
  unfold scan_text. rewrite E. reflexivity.
Qed.

Lemma scan_valid (h : Host) (c : ascii) (tl : jsstring) (userId ctx : jsval) :
  scan h {| in_text := JStr (c :: tl); in_userId := userId; in_context := ctx |}
  = scan_text h (c :: tl) userId ctx.
Proof. reflexivity. Qed.

(** C1. For every valid text (a non-empty string), [scan] returns a result
    whose status is the one chosen by the ordered, first-match-wins cascade
    of the specification over the score vector of that result: toxicity above
    0 rejects; else PHI above 0.5 quarantines; else sales pitch above 0.7
    with trust below 0.5 rejects; else spam above 0.7 quarantines; else PHI
    above 0.2 with link risk above 0.4, or spam above 0.4 with sales pitch
    above 0.5, quarantines; else PHI above 0.2, spam above 0.3 or link risk
    above 0.5 soft-blocks; otherwise the text is allowed.  In particular a
    toxicity score above 0 gives [REJECT] whatever the other scores. *)
Theorem C1_scan_status_is_cascade (h : Host) (c : ascii) (tl : jsstring)
    (userId ctx : jsval) :
  exists r,
    scan h {| in_text := JStr (c :: tl); in_userId := userId;
              in_context := ctx |} = Normal r
    /\ status r = cascade (scores r)
    /\ (0 < toxicity_score (scores r) -> status r = REJECT).
Proof.
  rewrite scan_valid.
  destruct (scan_text_result h (c :: tl) userId ctx) as (sc & phi & _ & ->).
  eexists. split; [reflexivity|]. cbn [status scores]. split.
  - apply status_of_cascade.
  - apply status_of_toxic.
Qed.

Lemma C1_witness :
  exists r,
    scan (fallback_host failing_lookup 0)
         (text_input "win prize click http://x.co shit" JUndefined JUndefined)
      = Normal r
    /\ 0 < spam_score (scores r)
    /\ status r = REJECT.
Proof.
  destruct (C1_scan_status_is_cascade (fallback_host failing_lookup 0)
              "w" (js "in prize click http://x.co shit") JUndefined JUndefined)
    as (r & E & _ & Htox).
  exists r. split; [exact E|].
  assert (Er := E). vm_compute in Er. injection Er as <-.
  split; [reflexivity|]. apply Htox. reflexivity.
Defined.

(** ** Invalid input *)

Lemma scan_invalid (h : Host) (input : ModerationInput) :
  typeof_string (in_text input) = false \/ in_text input = JStr [] ->
  scan h input = Normal invalid_input_result.
Proof.
  intros H. unfold scan. destruct H as [H|H]; rewrite H.
  - cbn [negb]. rewrite orb_true_r. reflexivity.
  - reflexivity.
Qed.

(** C4. When [text] is missing or is not a string (its [typeof] is not
    ['string']) or is the empty string, [scan] returns normally, with status
    [REJECT], all six scores 0, no flags, no detected spans and the reason
    "Invalid input". *)
Theorem C4_scan_invalid_input (h : Host) (input : ModerationInput) :
  typeof_string (in_text input) = false \/ in_text input = JStr [] ->
  exists r,
    scan h input = Normal r
    /\ status r = REJECT
    /\ scores r = {| phi_score := 0; spam_score := 0; sales_pitch_score := 0;
                     toxicity_score := 0; link_risk_score := 0;
                     user_trust_score := 0 |}
    /\ flags r = []
    /\ detectedSpans r = []
    /\ reason r = Some "Invalid input"%string.
Proof.
  intros H. exists invalid_input_result.
  split; [apply scan_invalid, H | repeat split].
Qed.

Lemma C4_witness :
  exists r,
    scan (fallback_host failing_lookup 0)
         {| in_text := JUndefined; in_userId := JStr (js "u1");
            in_context := JUndefined |} = Normal r
    /\ status r = REJECT /\ reason r = Some "Invalid input"%string.
Proof.
  destruct (C4_scan_invalid_input (fallback_host failing_lookup 0)
              {| in_text := JUndefined; in_userId := JStr (js "u1");
                 in_context := JUndefined |})
    as (r & E & Hs & _ & _ & _ & Hr).
  - left. reflexivity.
  - exists r. split; [exact E|]. split; [exact Hs | exact Hr].
Defined.

(** ** Timestamp and context *)

(** C9, as stated, fails on invalid input: the result returned for the empty
    text has neither a timestamp nor a context. *)
Lemma C9_invalid_input_lacks_timestamp_and_context :
  ~ (exists r,
       scan (fallback_host failing_lookup 0)
            (text_input "" JUndefined (JObj [("type"%string, js "post")]))
         = Normal r
       /\ timestamp r <> None
       /\ context r = Some (JObj [("type"%string, js "post")])).
Proof.
  intros (r & E & Ht & _). vm_compute in E. injection E as <-.
  apply Ht. reflexivity.
Qed.

(** C9, amended.  A scan of a valid text (a non-empty string) returns a
    result with a timestamp, the clock reading at the end of the scan, and
    with the context of the caller: the value supplied, or the empty object
    when none was.  The result for invalid input carries a reason and has
    neither field. *)
Theorem C9_scan_timestamp_and_context (h : Host) (input : ModerationInput) :
  exists r,
    scan h input = Normal r
    /\ (forall c tl, in_text input = JStr (c :: tl) ->
          timestamp r = Some (Date_toISOString h)
          /\ context r = Some (context_or_default (in_context input))
          /\ (in_context input <> JUndefined ->
              context r = Some (in_context input)))
    /\ (typeof_string (in_text input) = false \/ in_text input = JStr [] ->
          timestamp r = None /\ context r = None
          /\ reason r = Some "Invalid input"%string).
Proof.
  destruct input as [text userId ctx]. cbn [in_text in_context].
  destruct text as [| |b|n|[|c tl]|o];
    try (exists invalid_input_result;
         split; [apply scan_invalid; cbn; auto|];
         split; [intros ? ? [=] | intros _; repeat split]).
  rewrite scan_valid.
  destruct (scan_text_result h (c :: tl) userId ctx) as (sc & phi & _ & ->).
  eexists. split; [reflexivity|]. cbn [timestamp context reason]. split.
  - intros _ _ _. split; [reflexivity|]. split; [reflexivity|].
    intros Hctx. destruct ctx; try reflexivity. contradiction.
  - intros [H|H]; discriminate.
Qed.

Lemma C9_witness :
  exists r,
    scan (fallback_host failing_lookup 0)
         (text_input "hello" JUndefined (JObj [("type"%string, js "post")]))
      = Normal r
    /\ timestamp r = Some (js "2026-01-01T00:00:00.000Z")
    /\ context r = Some (JObj [("type"%string, js "post")]).
Proof.
  destruct (C9_scan_timestamp_and_context (fallback_host failing_lookup 0)
              (text_input "hello" JUndefined
                 (JObj [("type"%string, js "post")])))
    as (r & E & Hvalid & _).
  exists r. split; [exact E|].
  destruct (Hvalid "h"%char (js "ello") eq_refl) as (Ht & _ & Hc).
  split; [exact Ht | apply Hc; discriminate].
Defined.

(** ** The trust score *)

(** The age test of the source, a comparison of a quotient of milliseconds
    with a number of days, is the comparison of the milliseconds. *)
Lemma gt_accountAgeDays (days now created : Z) :
  gt (accountAgeDays now created) (inject_Z days) = older_than days now created.
Proof.
  unfold gt, accountAgeDays, older_than, Qle_bool, Qdiv, Qmult, Qinv.
  change ms_per_day with 86400000%Z. cbn.
  destruct (Z.leb_spec ((now - created) * 1 * 1) (days * 86400000));
    destruct (Z.ltb_spec (days * 86400000) (now - created));
    cbn; try reflexivity; lia.
Qed.

Lemma trust_of_user_spec (now created : Z) :
  trust_of_user now (Some {| createdAt := Some created |})
  == trust_spec now created.
Proof.
  unfold trust_of_user, trust_spec.
  change 30 with (inject_Z 30). change 90 with (inject_Z 90).
  rewrite !gt_accountAgeDays.
  destruct (older_than 30 now created), (older_than 90 now created);
    reflexivity.
Qed.

Lemma trust_of_user_base (now : Z) (user : option UserRecord) :
  user = None \/ user = Some {| createdAt := None |} ->
  trust_of_user now user = 0.7.
Proof. intros [-> | ->]; reflexivity. Qed.

(** C5, as stated, fails for a missing user: the lookup answers [null], no
    exception is raised, and the score is the base 0.7, not 0.5. *)
Lemma C5_missing_user_scores_base :
  ~ (exists q,
       getUserTrustScore (fallback_host empty_lookup 0) (JStr (js "ghost"))
         = Normal q
       /\ q == 0.5).
Proof.
  intros (q & E & Hq). vm_compute in E. injection E as <-. discriminate.
Qed.

(** C5, amended.  [getUserTrustScore] always returns.  For a user record
    with a creation time it returns the base 0.7, plus 0.1 when the account
    is older than 30 days, plus a further 0.1 when older than 90 days, capped
    at 1.  When the lookup throws it returns the default 0.5, and [scan] uses
    0.5 as well when no user id is supplied.  When the lookup answers that
    the user does not exist, or the record has no creation time, the score is
    the base 0.7. *)
Theorem C5_trust_score (h : Host) (userId : jsval) :
  exists q,
    getUserTrustScore h userId = Normal q
    /\ (forall created,
          findById h userId = Normal (Some {| createdAt := Some created |}) ->
          q == trust_spec (Date_now h) created)
    /\ (findById h userId = Throw -> q = 0.5)
    /\ (findById h userId = Normal None
        \/ findById h userId = Normal (Some {| createdAt := None |}) ->
        q = 0.7)
    /\ (forall c tl ctx,
          exists r,
            scan h {| in_text := JStr (c :: tl); in_userId := userId;
                      in_context := ctx |} = Normal r
            /\ user_trust_score (scores r)
               = if truthy userId then q else 0.5).
Proof.
  unfold getUserTrustScore.
  destruct (findById h userId) as [user|] eqn:E; cbn [bind try_catch].
  - exists (trust_of_user (Date_now h) user). split; [reflexivity|].
    split; [|split; [|split]].
    + intros created [= ->]. apply trust_of_user_spec.
    + discriminate.
    + intros [[= ->] | [= ->]]; reflexivity.
    + intros c tl ctx. rewrite scan_valid. unfold scan_text, scores_of.
      destruct (detectPHI_in_unit h (c :: tl)) as (phi & -> & _).
      destruct (detectToxicity_in_unit h (c :: tl)) as (tox & -> & _).
      unfold getUserTrustScore. rewrite E. cbn [bind try_catch].
      destruct (truthy userId); cbn [bind]; eexists; split; reflexivity.
  - exists 0.5. split; [reflexivity|].
    split; [|split; [|split]]; try discriminate.
    + reflexivity.
    + intros [H|H]; discriminate.
    + intros c tl ctx. rewrite scan_valid. unfold scan_text, scores_of.
      destruct (detectPHI_in_unit h (c :: tl)) as (phi & -> & _).
      destruct (detectToxicity_in_unit h (c :: tl)) as (tox & -> & _).
      unfold getUserTrustScore. rewrite E. cbn [bind try_catch].
      destruct (truthy userId); cbn [bind]; eexists; split; reflexivity.
Qed.

(** An account created at time 0, read 100 days later: 0.7 + 0.1 + 0.1. *)
Lemma C5_witness :
  exists q,
    getUserTrustScore (fallback_host epoch_lookup (100 * ms_per_day))
      (JStr (js "u1")) = Normal q
    /\ q == 0.9.
Proof.
  destruct (C5_trust_score (fallback_host epoch_lookup (100 * ms_per_day))
              (JStr (js "u1")))
    as (q & E & Hage & _).
  exists q. split; [exact E|].
  rewrite (Hage 0%Z eq_refl). reflexivity.
Defined.

(** ** Toxicity *)

(** On a non-empty text the detector is the disjunction of its three
    signals. *)
Lemma detectToxicity_signals (h : Host) (c : ascii) (tl : jsstring) :
  detectToxicity h (c :: tl) =
  Normal
    (if (match isProfane h (c :: tl) with Normal b => b | Throw => false end)
        || hasObfuscatedProfanity (c :: tl) || hasDirectProfanity (c :: tl)
     then {| tox_score_of := 1.0; tox_isProfane := true |}
     else {| tox_score_of := 0; tox_isProfane := false |}).
Proof.
  unfold detectToxicity. rewrite dictionary_signal_normal. cbn [bind].
  destruct (_ || _ || _); reflexivity.
Qed.

(** C3. For every text [detectToxicity] returns, and its score is exactly 0
    or exactly 1.  On a text that it examines (any non-empty string) the
    score is 1 with [isProfane] set if and only if at least one of the three
    signals fires: the dictionary answers that the text is profane, the
    normalised text matches the pattern list, or the lower-cased text holds a
    word of the direct list.  A dictionary that throws (or is absent) does
    not make the detector throw: the result is then decided by the other two
    signals.  On the empty string the score is 0 and neither of these two
    signals fires. *)
Theorem C3_detectToxicity_binary (h : Host) (text : jsstring) :
  exists r,
    detectToxicity h text = Normal r
    /\ (tox_score_of r = 0 \/ tox_score_of r = 1.0)
    /\ (text <> [] ->
        (tox_score_of r = 1.0 /\ tox_isProfane r = true
         <-> isProfane h text = Normal true
             \/ hasObfuscatedProfanity text = true
             \/ hasDirectProfanity text = true))
    /\ (isProfane h text = Throw ->
        (tox_score_of r = 1.0 /\ tox_isProfane r = true
         <-> hasObfuscatedProfanity text = true
             \/ hasDirectProfanity text = true))
    /\ (text = [] ->
        tox_score_of r = 0 /\ tox_isProfane r = false
        /\ hasObfuscatedProfanity text = false
        /\ hasDirectProfanity text = false).
Proof.
  destruct text as [|c tl].
  - eexists. split; [reflexivity|]. cbn [tox_score_of tox_isProfane].
    split; [left; reflexivity|]. split; [intros H; contradiction|].
    split; [|intros _; repeat split].
    intros _. split; [intros [[=] _] | intros [H|H]; vm_compute in H; discriminate].
  - rewrite detectToxicity_signals. eexists. split; [reflexivity|].
    destruct (isProfane h (c :: tl)) as [[|]|];
      destruct (hasObfuscatedProfanity (c :: tl));
      destruct (hasDirectProfanity (c :: tl));
      cbn [orb tox_score_of tox_isProfane];
      (split; [auto|]); (split; [intros _|split; [intros Hthrow|intros [=]]]);
      try discriminate;
      (split; [intros [H1 H2]; try discriminate; auto
              | intros H; try (split; reflexivity);
                repeat (destruct H as [H|H]; try discriminate);
                discriminate]).
Qed.

Lemma C3_witness :
  exists r,
    detectToxicity (fallback_host failing_lookup 0) (js "kill the process")
      = Normal r
    /\ tox_score_of r = 1.0 /\ tox_isProfane r = true.
Proof.
  destruct (C3_detectToxicity_binary (fallback_host failing_lookup 0)
              (js "kill the process"))
    as (r & E & _ & Hiff & _).
  exists r. split; [exact E|].
  apply Hiff; [discriminate|].
  right. right. vm_compute. reflexivity.
Defined.

(** ** Obfuscated profanity *)

(** The two variants that the pattern list catches, whatever the dictionary
    says. *)
Lemma spaced_and_sh1t_detected (h : Host) :
  detectToxicity h (js "f u c k")
    = Normal {| tox_score_of := 1.0; tox_isProfane := true |}
  /\ detectToxicity h (js "sh1t")
     = Normal {| tox_score_of := 1.0; tox_isProfane := true |}.
Proof.
  split.
  - change (js "f u c k") with ("f"%char :: js " u c k").
    rewrite detectToxicity_signals.
    replace (hasObfuscatedProfanity ("f"%char :: js " u c k")) with true
      by (vm_compute; reflexivity).
    rewrite orb_true_r. reflexivity.
  - change (js "sh1t") with ("s"%char :: js "h1t").
    rewrite detectToxicity_signals.
    replace (hasObfuscatedProfanity ("s"%char :: js "h1t")) with true
      by (vm_compute; reflexivity).
    rewrite orb_true_r. reflexivity.
Qed.

Lemma f4ck_without_dictionary (h : Host) :
  isProfane h (js "f4ck") <> Normal true ->
  detectToxicity h (js "f4ck")
  = Normal {| tox_score_of := 0; tox_isProfane := false |}.
Proof.
  intros Hdict.
  change (js "f4ck") with ("f"%char :: js "4ck") in *.
  rewrite detectToxicity_signals.
  replace (hasObfuscatedProfanity ("f"%char :: js "4ck")) with false
    by (vm_compute; reflexivity).
  replace (hasDirectProfanity ("f"%char :: js "4ck")) with false
    by (vm_compute; reflexivity).
  destruct (isProfane h _) as [[|]|]; try reflexivity. contradiction.
Qed.

(** C6 fails on "f4ck".  The normalisation maps the digit 4 to the letter a,
    which gives "fack"; no entry of the pattern list occurs in it, the direct
    check finds no listed word, and without the optional dictionary (the
    fallback of the source stands in for it) the score is 0.  The two
    examples that the comment above [detectToxicity] gives for special
    characters and leet speak, "f*ck" and "f0ck", fare the same: they become
    "fck" and "fock". *)
Theorem C6_f4ck_not_detected :
  normalizeTextForDetection (js "f4ck") = js "fack"
  /\ checkProfanityPatterns (js "fack") = false
  /\ hasDirectProfanity (js "f4ck") = false
  /\ fallback_isProfane (js "f4ck") = Normal false
  /\ detectToxicity (fallback_host failing_lookup 0) (js "f4ck")
     = Normal {| tox_score_of := 0; tox_isProfane := false |}
  /\ normalizeTextForDetection (js "f*ck") = js "fck"
  /\ detectToxicity (fallback_host failing_lookup 0) (js "f*ck")
     = Normal {| tox_score_of := 0; tox_isProfane := false |}
  /\ normalizeTextForDetection (js "f0ck") = js "fock"
  /\ detectToxicity (fallback_host failing_lookup 0) (js "f0ck")
     = Normal {| tox_score_of := 0; tox_isProfane := false |}.
Proof. repeat split; vm_compute; reflexivity. Qed.

(** ** The double count of [detectPHI] *)

Lemma count_cons {A : Type} (x : A) (l : list A) : count (x :: l) == count l + 1.
Proof.
  unfold count. cbn [length]. rewrite Nat2Z.inj_succ, <- Z.add_1_r.
  rewrite inject_Z_plus. reflexivity.
Qed.

Lemma validate_loop_total (h : Host) (phones : list jsstring) :
  forall st,
    exists st',
      validate_loop h st phones = Normal st'
      /\ snd st' == snd st + 0.9 * count (filter (validated h) phones).
Proof.
  induction phones as [|phone more IH]; intros st; cbn [validate_loop filter].
  - exists st. split; [reflexivity|]. unfold count. cbn. ring.
  - unfold validate_step, validated at 1.
    destruct (isValidPhoneNumber h phone) as [[|]|]; cbn [bind try_catch].
    + destruct (IH (fst st ++ [ {| d_type := "validated_phone";
                                   d_matches := [phone]; d_weight := 0.9 |} ],
                    snd st + 0.9)) as (st' & E & Hst').
      exists st'. split; [exact E|].
      rewrite Hst', count_cons. cbn [snd]. ring.
    + apply IH.
    + apply IH.
Qed.

(** For every text, each phone-shaped match that the validator accepts adds
    0.9 to what the pattern table has already counted, phone pattern
    included. *)
Lemma phi_total_double_count (h : Host) (text : jsstring) :
  exists st,
    phi_total h text = Normal st
    /\ snd st == table_total text
                 + 0.9 * count (filter (validated h)
                                  (match_all false phone_regex text)).
Proof.
  unfold phi_total, table_total.
  destruct (validate_loop_total h (match_all false phone_regex text)
              (fold_left (phi_step text) PHI_PATTERNS ([], 0)))
    as (st' & -> & Hst').
  exists st'. split; [reflexivity | exact Hst'].
Qed.

(** The first entry of the table is the phone pattern with weight 0.8: it
    counts the very matches that the validation pass goes through. *)
Lemma phone_pattern_first (text : jsstring) :
  exists p more,
    PHI_PATTERNS = p :: more
    /\ p_weight p = 0.8
    /\ matches_of p text = match_all false phone_regex text.
Proof. eexists. eexists. split; [reflexivity|]. split; reflexivity. Qed.

(** ** A phone number *)

Lemma call_me_table :
  fold_left (phi_step call_me) PHI_PATTERNS ([], 0)
  = ([ {| d_type := "phone"; d_matches := [js "555-123-4567"];
          d_weight := 0.8 |} ],
     0 + 0.8 * count [js "555-123-4567"]).
Proof. vm_compute. reflexivity. Qed.

Lemma call_me_phones :
  match_all false phone_regex call_me = [js "555-123-4567"].
Proof. vm_compute. reflexivity. Qed.

Lemma call_me_other_scores :
  spam_score_of (detectSpam call_me) = 0
  /\ sales_score_of (detectSalesPitch call_me) = 0
  /\ hasObfuscatedProfanity call_me = false
  /\ hasDirectProfanity call_me = false.
Proof. repeat split; vm_compute; reflexivity. Qed.

Lemma call_me_links : link_score_of (detectLinks call_me) == 0.
Proof. vm_compute. reflexivity. Qed.

Lemma scan_call_me (h : Host) (userId ctx : jsval) :
  scan h {| in_text := JStr call_me; in_userId := userId; in_context := ctx |}
  = scan_text h call_me userId ctx.
Proof. reflexivity. Qed.

Lemma detectToxicity_call_me (h : Host) :
  isProfane h call_me <> Normal true ->
  detectToxicity h call_me
  = Normal {| tox_score_of := 0; tox_isProfane := false |}.
Proof.
  intros Hdict.
  pose proof (detectToxicity_signals h "C"%char (js "all me at 555-123-4567"))
    as Htox.
  change ("C"%char :: js "all me at 555-123-4567") with call_me in Htox.
  destruct call_me_other_scores as (_ & _ & Hobf & Hdir).
  rewrite Hobf, Hdir in Htox. rewrite Htox.
  destruct (isProfane h call_me) as [[|]|]; try reflexivity. contradiction.
Qed.

(** The running total of [detectPHI] on the example: 0.8 from the table, and
    0.9 more when the validator accepts the number. *)
Lemma phi_total_call_me (h : Host) :
  exists st,
    phi_total h call_me = Normal st
    /\ (isValidPhoneNumber h (js "555-123-4567") = Normal true ->
        snd st == 0.8 + 0.9)
    /\ (isValidPhoneNumber h (js "555-123-4567") <> Normal true ->
        snd st == 0.8).
Proof.
  unfold phi_total. rewrite call_me_table, call_me_phones.
  cbn [validate_loop]. unfold validate_step.
  destruct (isValidPhoneNumber h (js "555-123-4567")) as [[|]|];
    cbn [bind try_catch]; eexists; (split; [reflexivity|]);
    cbn [snd]; split; intros H; try discriminate; try reflexivity;
    contradiction.
Qed.

(** C7. For the text "Call me at 555-123-4567", when the dictionary does not
    flag the text, [scan] returns a PHI score above 0.5 and the status
    [QUARANTINE].  The PHI score is the running total of [detectPHI] clamped
    to 1; the number is counted 0.8 by the phone pattern of the table, and
    when the validity check accepts it the total gets 0.9 more (1.7 before
    the clamp, 1 after): the number counts twice.  The same holds of every
    text: each phone-shaped match that the validity check accepts adds 0.9 to
    the total of the table, in which the phone pattern has already counted
    it. *)
Theorem C7_call_me_quarantined (h : Host) (userId ctx : jsval) :
  isProfane h call_me <> Normal true ->
  exists r st,
    scan h {| in_text := JStr call_me; in_userId := userId;
              in_context := ctx |} = Normal r
    /\ 0.5 < phi_score (scores r)
    /\ status r = QUARANTINE
    /\ phi_total h call_me = Normal st
    /\ phi_score (scores r) = Qmin (snd st) 1.0
    /\ (isValidPhoneNumber h (js "555-123-4567") = Normal true ->
        snd st == 0.8 + 0.9 /\ phi_score (scores r) == 1)
    /\ (isValidPhoneNumber h (js "555-123-4567") <> Normal true ->
        snd st == 0.8 /\ phi_score (scores r) == 0.8)
    /\ (forall text, exists st',
          phi_total h text = Normal st'
          /\ snd st' == table_total text
                        + 0.9 * count (filter (validated h)
                                         (match_all false phone_regex text))).
Proof.
  intros Hdict.
  destruct (phi_total_call_me h) as (st & Est & Hyes & Hno).
  assert (Hphi : 0.5 < Qmin (snd st) 1.0).
  { apply Q.min_glb_lt; [|reflexivity].
    destruct (isValidPhoneNumber h (js "555-123-4567")) as [[|]|] eqn:Ev.
    - rewrite (Hyes eq_refl). reflexivity.
    - rewrite Hno by discriminate. reflexivity.
    - rewrite Hno by discriminate. reflexivity. }
  rewrite scan_call_me. unfold scan_text, scores_of, detectPHI.
  rewrite Est, (detectToxicity_call_me h Hdict).
  destruct (trust_choice_normal h userId) as (t & ->).
  cbn [bind fst snd]. eexists. exists st. split; [reflexivity|].
  cbn [scores status phi_score phi_score_of].
  split; [exact Hphi|]. split.
  - unfold status_of. cbn [toxicity_score phi_score].
    apply gt_true in Hphi. rewrite Hphi. reflexivity.
  - split; [reflexivity|]. split; [reflexivity|]. split.
    + intros Ev. split; [exact (Hyes Ev)|]. rewrite (Hyes Ev). reflexivity.
    + split; [|apply phi_total_double_count].
      intros Ev. split; [exact (Hno Ev)|]. rewrite (Hno Ev). reflexivity.
Qed.

Lemma C7_witness :
  exists r,
    scan (fallback_host failing_lookup 0)
         (text_input "Call me at 555-123-4567" JUndefined JUndefined)
      = Normal r
    /\ status r = QUARANTINE /\ phi_score (scores r) == 1.
Proof.
  destruct (C7_call_me_quarantined (fallback_host failing_lookup 0)
              JUndefined JUndefined)
    as (r & st & E & _ & Hs & _ & _ & Hyes & _ & _).
  - vm_compute. discriminate.
  - exists r. split; [exact E|]. split; [exact Hs|].
    apply Hyes. vm_compute. reflexivity.
Defined.


(** ** The direct word check *)

Lemma class_has_self (icase : bool) (c : ascii) :
  class_has icase (is_char c) c = true.
Proof. unfold class_has. rewrite is_char_refl. destruct icase; reflexivity. Qed.

Lemma m_seqs_cons (icase : bool) (r : regex) (rs : list regex) (k : cont)
    (s : mstate) :
  m icase (seqs (r :: rs)) k s = m icase r (m icase (seqs rs) k) s.
Proof. destruct rs; reflexivity. Qed.

Lemma last_char_cons (a : ascii) (s : jsstring) :
  exists c, last_char (a :: s) = Some c.
Proof.
  revert a. induction s as [|b s IH]; intros a; [exists a; reflexivity|].
  destruct (IH b) as (c & Hc). exists c. exact Hc.
Qed.

(** The pattern of a plain word reads the word itself. *)
Lemma m_literal (icase : bool) (word : jsstring) :
  forall (k : cont) (before : option ascii) (post : jsstring)
         (cap : option jsstring),
    m icase (literal word) k (MState before (word ++ post) cap)
    = k (MState (match last_char word with Some c => Some c | None => before end)
           post cap).
Proof.
  unfold literal.
  induction word as [|x word IH]; intros k before post cap.
  - reflexivity.
  - cbn [map]. rewrite m_seqs_cons. cbn [m chr app rest].
    rewrite class_has_self. cbn [xorb]. unfold advance. cbn [cap1].
    rewrite IH. destruct word as [|a word]; [reflexivity|].
    change (last_char (x :: a :: word)) with (last_char (a :: word)).
    destruct (last_char_cons a word) as (c & ->). reflexivity.
Qed.

(** The leftmost search finds a match that starts after any prefix. *)
Lemma search_app (icase : bool) (r : regex) (pre suffix : jsstring) :
  forall before,
    match_at icase r
      (match last_char pre with Some c => Some c | None => before end) suffix
    <> None ->
    search icase r before (pre ++ suffix) = true.
Proof.
  induction pre as [|c pre IH]; intros before H.
  - cbn [app last_char] in *. destruct suffix; cbn [search];
      destruct (match_at icase r before _); congruence.
  - cbn [app search].
    destruct (match_at icase r before (c :: pre ++ suffix)); [reflexivity|].
    apply IH. destruct pre as [|a pre]; [exact H|].
    change (last_char (c :: a :: pre)) with (last_char (a :: pre)) in H.
    destruct (last_char_cons a pre) as (z & Hz). rewrite Hz in H |- *.
    exact H.
Qed.

Lemma last_char_map (f : ascii -> ascii) (s : jsstring) :
  last_char (map f s) = option_map f (last_char s).
Proof.
  induction s as [|c s IH]; [reflexivity|].
  destruct s; [reflexivity|]. exact IH.
Qed.

Lemma last_char_word (word : jsstring) :
  forallb is_word word = true -> word <> [] ->
  exists c, last_char word = Some c /\ is_word c = true.
Proof.
  induction word as [|x word IH]; intros Hall Hne; [contradiction|].
  cbn [forallb] in Hall. apply andb_true_iff in Hall. destruct Hall as [Hx Hall].
  destruct word as [|y word]; [exists x; split; [reflexivity | exact Hx]|].
  apply IH; [exact Hall | discriminate].
Qed.

(** A word made of word characters is found by its pattern wherever it
    stands alone. *)
Lemma word_regex_matches (icase : bool) (word post : jsstring)
    (before : option ascii) :
  forallb is_word word = true -> word <> [] ->
  not_word before -> not_word (hd_error post) ->
  match_at icase (word_regex word) before (word ++ post) <> None.
Proof.
  intros Hall Hne Hbefore Hpost.
  destruct (last_char_word word Hall Hne) as (z & Hz & Hzw).
  unfold match_at, word_regex.
  assert (Hstart : at_word_boundary (MState before (word ++ post) None) = true).
  { unfold at_word_boundary. cbn [prev rest].
    destruct word as [|x word]; [contradiction|]. cbn [forallb app] in *.
    apply andb_true_iff in Hall. destruct Hall as [-> _].
    destruct before as [b|]; [cbn in Hbefore; rewrite Hbefore|]; reflexivity. }
  cbn [seqs m]. rewrite Hstart. rewrite m_literal, Hz.
  unfold at_word_boundary. cbn [prev rest]. rewrite Hzw.
  destruct post as [|p post]; [discriminate|].
  cbn in Hpost. rewrite Hpost. discriminate.
Qed.

Lemma commonProfanity_words (word : jsstring) :
  In word commonProfanity -> forallb is_word word = true /\ word <> [].
Proof.
  unfold commonProfanity. cbn [map In].
  intros H.
  repeat (destruct H as [<-|H]; [split; [reflexivity | discriminate]|]).
  contradiction.
Qed.

Lemma hd_error_map (f : ascii -> ascii) (s : jsstring) :
  hd_error (map f s) = option_map f (hd_error s).
Proof. destruct s; reflexivity. Qed.

(** A listed word that stands alone in the lower-cased text, the string that
    the direct check tests, fires the third signal. *)
Lemma hasDirectProfanity_stands_alone (word text : jsstring) :
  In word commonProfanity -> stands_alone word (toLowerCase text) ->
  hasDirectProfanity text = true.
Proof.
  intros Hin (pre & post & Hlower & Hpre & Hpost).
  destruct (commonProfanity_words word Hin) as [Hall Hne].
  unfold hasDirectProfanity. apply existsb_exists. exists word.
  split; [exact Hin|].
  rewrite Hlower. unfold regex_test. apply search_app.
  apply word_regex_matches; try assumption.
  destruct (last_char pre); [exact Hpre | exact I].
Qed.

(** For a text within the range modelled (U+0000..U+00FF), a word that
    stands alone in the text itself, in any letter case, stands alone in the
    lower-cased text as well. *)
Lemma standalone_word_lower (word text : jsstring) :
  standalone_word word text -> stands_alone word (toLowerCase text).
Proof.
  intros (pre & w & post & -> & Hw & Hpre & Hpost).
  exists (toLowerCase pre), (toLowerCase post).
  unfold toLowerCase in *. rewrite !map_app, Hw.
  split; [reflexivity|]. rewrite last_char_map, hd_error_map. split.
  - destruct (last_char pre) as [x|]; [|exact I].
    cbn in *. rewrite lower_char_word. exact Hpre.
  - destruct (hd_error post) as [x|]; [|exact I].
    cbn in *. rewrite lower_char_word. exact Hpost.
Qed.

(** C10. Whenever the text, lower-cased as the direct check lower-cases it
    before testing, contains one of the words fuck, shit, damn, ass, bitch,
    sex, porn, kill, hate, abuse as a standalone word (between word
    boundaries), that is whenever the word occurs in the text in any letter
    case and stands alone once the text is lower-cased, everyday uses such as
    "I hate waiting" or "KILL the process" included, [detectToxicity] returns
    the score 1 and [scan] returns the status [REJECT]. *)
Theorem C10_direct_word_rejects (h : Host) (word text : jsstring)
    (userId ctx : jsval) :
  In word commonProfanity ->
  stands_alone word (toLowerCase text) ->
  detectToxicity h text
    = Normal {| tox_score_of := 1.0; tox_isProfane := true |}
  /\ exists r,
       scan h {| in_text := JStr text; in_userId := userId;
                 in_context := ctx |} = Normal r
       /\ toxicity_score (scores r) = 1.0
       /\ status r = REJECT.
Proof.
  intros Hin Hword.
  pose proof (hasDirectProfanity_stands_alone word text Hin Hword) as Hdir.
  destruct text as [|c tl]; [vm_compute in Hdir; discriminate|].
  assert (Htox : detectToxicity h (c :: tl)
                 = Normal {| tox_score_of := 1.0; tox_isProfane := true |}).
  { rewrite detectToxicity_signals, Hdir, orb_true_r. reflexivity. }
  split; [exact Htox|].
  rewrite scan_valid. unfold scan_text, scores_of. rewrite Htox.
  destruct (detectPHI_in_unit h (c :: tl)) as (phi & -> & _).
  destruct (trust_choice_normal h userId) as (t & ->).
  cbn [bind fst]. eexists. split; [reflexivity|].
  cbn [scores status toxicity_score].
  split; [reflexivity|]. apply status_of_toxic. reflexivity.
Qed.

Lemma C10_witness :
  (exists r,
     scan (fallback_host failing_lookup 0)
          (text_input "I hate waiting" JUndefined JUndefined) = Normal r
     /\ status r = REJECT)
  /\ (exists r,
        scan (fallback_host failing_lookup 0)
             (text_input "KILL the process" JUndefined JUndefined) = Normal r
        /\ status r = REJECT).
Proof.
  split.
  - destruct (C10_direct_word_rejects (fallback_host failing_lookup 0)
                (js "hate") (js "I hate waiting") JUndefined JUndefined)
      as (_ & r & E & _ & Hs).
    + vm_compute. tauto.
    + exists (js "i "), (js " waiting"). repeat split; reflexivity.
    + exists r. split; [exact E | exact Hs].
  - destruct (C10_direct_word_rejects (fallback_host failing_lookup 0)
                (js "kill") (js "KILL the process") JUndefined JUndefined)
      as (_ & r & E & _ & Hs).
    + vm_compute. tauto.
    + exists [], (js " the process"). repeat split; reflexivity.
    + exists r. split; [exact E | exact Hs].
Defined.


(** ** The tests of the repository *)

(** [tests/moderation.test.js], 'sanitizes HTML'. *)
Example test_sanitizes_html :
  sanitizeInput (js "<script>alert(1)</script>Hello") = js "Hello".
Proof. vm_compute. reflexivity. Qed.

(** The lazy quantifier of the script pattern stops at the first closing
    tag. *)
Example sanitize_two_blocks :
  sanitizeInput (js "<script>a</script> b <STYLE x>c</ style>")
  = js "b".
Proof. vm_compute. reflexivity. Qed.

(** The sentences of [test-moderation.js] that the specification gives an
    outcome for, on the host without optional packages. *)
Example scan_normal_content :
  exists r,
    scan (fallback_host failing_lookup 0)
      (text_input "Thanks for sharing this helpful information!"
         (JStr (js "test-user-id")) (JObj [("type"%string, js "post")]))
    = Normal r
    /\ status r = ALLOW /\ flags r = [] /\ detectedSpans r = [].
Proof. eexists. split; [vm_compute; reflexivity|]. repeat split. Qed.

Example scan_high_toxicity :
  exists r,
    scan (fallback_host failing_lookup 0)
      (text_input "This is stupid and hateful content"
         (JStr (js "test-user-id")) (JObj [("type"%string, js "post")]))
    = Normal r
    /\ status r = REJECT /\ toxicity_score (scores r) = 1.0.
Proof. eexists. split; [vm_compute; reflexivity|]. repeat split. Qed.

Example normalize_collapses_to_two :
  normalizeTextForDetection (js "F.U.U.U.C.K") = js "fuuck".
Proof. vm_compute. reflexivity. Qed.


(** * Further properties of the code *)

(** ** The shape of a scan *)

Lemma detectToxicity_values (h : Host) (text : jsstring) :
  exists r,
    detectToxicity h text = Normal r
    /\ (r = {| tox_score_of := 0; tox_isProfane := false |}
        \/ r = {| tox_score_of := 1.0; tox_isProfane := true |}).
Proof.
  destruct text as [|c tl].
  - eexists. split; [reflexivity | left; reflexivity].
  - rewrite detectToxicity_signals.
    destruct (_ || _ || _); eexists; split; try reflexivity; auto.
Qed.

Lemma trust_of_user_ge (now : Z) (user : option UserRecord) :
  0.5 <= trust_of_user now user.
Proof.
  unfold trust_of_user. apply Q.min_glb; [|discriminate].
  destruct user as [[[created|]]|]; try discriminate.
  destruct (gt _ 30), (gt _ 90); discriminate.
Qed.

Lemma trust_choice_ge (h : Host) (userId : jsval) :
  exists t,
    (if truthy userId then getUserTrustScore h userId else Normal 0.5)
    = Normal t
    /\ 0.5 <= t.
Proof.
  destruct (truthy userId); [|eexists; split; [reflexivity | discriminate]].
  unfold getUserTrustScore.
  destruct (findById h userId) as [user|]; cbn [bind try_catch];
    eexists; (split; [reflexivity|]).
  - apply trust_of_user_ge.
  - discriminate.
Qed.

(** A scan of a non-empty string, laid out: the three results that depend on
    the host, and the object built from them. *)
Lemma scan_text_unfold (h : Host) (text : jsstring) (userId ctx : jsval) :
  exists phi tox t,
    detectPHI h text = Normal phi
    /\ detectToxicity h text = Normal tox
    /\ (if truthy userId then getUserTrustScore h userId else Normal 0.5)
       = Normal t
    /\ scan_text h text userId ctx =
       Normal {| status := status_of (assemble text phi tox t);
                 scores := assemble text phi tox t;
                 flags := flags_of (assemble text phi tox t);
                 detectedSpans := spans_of text (phi_detections phi);
                 reason := None;
                 timestamp := Some (Date_toISOString h);
                 context := Some (context_or_default ctx) |}.
Proof.
  destruct (detectPHI_in_unit h text) as (phi & Ephi & _).
  destruct (detectToxicity_in_unit h text) as (tox & Etox & _).
  destruct (trust_choice_normal h userId) as (t & Et).
  exists phi, tox, t. repeat (split; [assumption|]).
  unfold scan_text, scores_of. rewrite Ephi, Etox, Et. reflexivity.
Qed.

(** Every result of [scan] is either the fixed answer to invalid input or
    built from a score vector. *)
Lemma scan_shape (h : Host) (input : ModerationInput) (r : ModerationResult) :
  scan h input = Normal r ->
  r = invalid_input_result
  \/ exists text phi tox t,
       in_text input = JStr text /\ text <> []
       /\ detectPHI h text = Normal phi
       /\ detectToxicity h text = Normal tox
       /\ (if truthy (in_userId input)
           then getUserTrustScore h (in_userId input) else Normal 0.5)
          = Normal t
       /\ status r = status_of (assemble text phi tox t)
       /\ scores r = assemble text phi tox t
       /\ flags r = flags_of (assemble text phi tox t)
       /\ detectedSpans r = spans_of text (phi_detections phi).
Proof.
  unfold scan. destruct input as [text userId ctx]. cbn [in_text in_userId in_context].
  destruct text as [| |b|n|[|c tl]|o]; cbn [truthy typeof_string negb orb];
    try (intros [= <-]; left; reflexivity).
  - destruct b; cbn; intros [= <-]; left; reflexivity.
  - destruct (negb (n =? 0)%Z); cbn; intros [= <-]; left; reflexivity.
  - destruct (scan_text_unfold h (c :: tl) userId ctx)
      as (phi & tox & t & Ephi & Etox & Et & ->).
    intros [= <-]. right. exists (c :: tl), phi, tox, t.
    split; [reflexivity|]. split; [discriminate|].
    repeat (split; [assumption|]). repeat split.
Qed.

(** ** Rejection *)

Lemma gt_false (x y : Q) : gt x y = false <-> x <= y.
Proof.
  unfold gt. rewrite negb_false_iff. apply Qle_bool_iff.
Qed.

Lemma lt_false (x y : Q) : lt x y = false <-> y <= x.
Proof. unfold lt. apply (gt_false y x). Qed.

(** With a trust score of 0.5 or more the third rule of the cascade never
    applies: the status is [REJECT] exactly when the toxicity score is
    positive. *)
Lemma status_of_reject (sc : ScoreVector) :
  0.5 <= user_trust_score sc ->
  (status_of sc = REJECT <-> gt (toxicity_score sc) 0 = true).
Proof.
  intros Ht. apply lt_false in Ht. unfold status_of. rewrite Ht.
  rewrite andb_false_r.
  destruct (gt (toxicity_score sc) 0); [tauto|].
  destruct (gt (phi_score sc) 0.5); [split; discriminate|].
  destruct (gt (spam_score sc) 0.7); [split; discriminate|].
  destruct (_ || _); [split; discriminate|].
  destruct (_ || _); split; discriminate.
Qed.

Lemma flags_of_toxicity (sc : ScoreVector) :
  In toxicity (flags_of sc) <-> gt (toxicity_score sc) 0 = true.
Proof.
  unfold flags_of.
  destruct (gt (phi_score sc) 0.3), (gt (spam_score sc) 0.5),
    (gt (sales_pitch_score sc) 0.6), (gt (toxicity_score sc) 0),
    (gt (link_risk_score sc) 0.6); cbn;
    (split; [intros H; try reflexivity;
             repeat (destruct H as [H|H]; try discriminate); contradiction
            | intros H; try discriminate; auto 6]).
Qed.

(** X1. The trust score that [scan] uses is never below 0.5, so the rule
    "sales pitch above 0.7 and trust below 0.5" never applies: [scan] answers
    [REJECT] on a valid text exactly when the toxicity score is 1, which is
    exactly when the result carries the flag [toxicity]. *)
Theorem scan_rejects_only_toxicity (h : Host) (c : ascii) (tl : jsstring)
    (userId ctx : jsval) :
  exists r,
    scan h {| in_text := JStr (c :: tl); in_userId := userId;
              in_context := ctx |} = Normal r
    /\ 0.5 <= user_trust_score (scores r)
    /\ (status r = REJECT <-> toxicity_score (scores r) = 1.0)
    /\ (status r = REJECT <-> In toxicity (flags r)).
Proof.
  rewrite scan_valid.
  destruct (scan_text_unfold h (c :: tl) userId ctx)
    as (phi & tox & t & _ & Etox & Et & ->).
  destruct (trust_choice_ge h userId) as (t' & Et' & Hge).
  rewrite Et in Et'. injection Et' as <-.
  eexists. split; [reflexivity|]. cbn [scores status flags].
  split; [exact Hge|].
  rewrite flags_of_toxicity, (status_of_reject (assemble (c :: tl) phi tox t) Hge).
  cbn [assemble toxicity_score].
  destruct (detectToxicity_values h (c :: tl)) as (tox' & Etox' & Hv).
  rewrite Etox in Etox'. injection Etox' as <-.
  destruct Hv as [-> | ->]; cbn [tox_score_of];
    split; split; intros H; try reflexivity; try discriminate; auto.
Qed.

Lemma gt_weaken (x a b : Q) : b <= a -> gt x a = true -> gt x b = true.
Proof.
  rewrite !gt_true. intros Hba Hax. eapply Qle_lt_trans; eassumption.
Qed.

Lemma status_of_allow_flags (sc : ScoreVector) (f : Flag) :
  status_of sc = ALLOW -> In f (flags_of sc) -> f = sales_pitch.
Proof.
  unfold status_of.
  destruct (gt (toxicity_score sc) 0) eqn:Etox; [discriminate|].
  destruct (gt (phi_score sc) 0.5); [discriminate|].
  destruct (_ && _); [discriminate|].
  destruct (gt (spam_score sc) 0.7); [discriminate|].
  destruct (_ || _); [discriminate|].
  destruct (gt (phi_score sc) 0.2) eqn:Ephi; [discriminate|].
  destruct (gt (spam_score sc) 0.3) eqn:Espam; [discriminate|].
  destruct (gt (link_risk_score sc) 0.5) eqn:Elink; [discriminate|].
  intros _. unfold flags_of. rewrite Etox.
  destruct (gt (phi_score sc) 0.3) eqn:E1.
  { apply (gt_weaken _ 0.3 0.2) in E1; [congruence | discriminate]. }
  destruct (gt (spam_score sc) 0.5) eqn:E2.
  { apply (gt_weaken _ 0.5 0.3) in E2; [congruence | discriminate]. }
  destruct (gt (link_risk_score sc) 0.6) eqn:E3.
  { apply (gt_weaken _ 0.6 0.5) in E3; [congruence | discriminate]. }
  destruct (gt (sales_pitch_score sc) 0.6); cbn; intros H;
    repeat (destruct H as [H|H]; auto); contradiction.
Qed.

(** X2. A result with status [ALLOW] carries no flag other than
    [sales_pitch]: the thresholds of the flags [phi_detected],
    [spam_detected], [toxicity] and [suspicious_links] all lie above
    thresholds that already block the text. *)
Theorem allowed_result_flags (h : Host) (input : ModerationInput)
    (r : ModerationResult) (f : Flag) :
  scan h input = Normal r ->
  status r = ALLOW ->
  In f (flags r) ->
  f = sales_pitch.
Proof.
  intros E Hs Hf. apply scan_shape in E. destruct E as [-> | E].
  - discriminate.
  - destruct E as (text & phi & tox & t & _ & _ & _ & _ & _ & Es & _ & Ef & _).
    rewrite Es in Hs. rewrite Ef in Hf.
    exact (status_of_allow_flags _ f Hs Hf).
Qed.

Lemma allowed_result_flags_witness :
  exists r f,
    scan (fallback_host failing_lookup 0)
      (text_input "Buy now! Special offer! DM me for deals! Limited time!"
         JUndefined JUndefined) = Normal r
    /\ status r = ALLOW /\ In f (flags r) /\ f = sales_pitch.
Proof.
  destruct (scan (fallback_host failing_lookup 0)
              (text_input
                 "Buy now! Special offer! DM me for deals! Limited time!"
                 JUndefined JUndefined)) as [r|] eqn:E;
    [|vm_compute in E; discriminate].
  exists r, sales_pitch. split; [reflexivity|].
  assert (Er := E). vm_compute in Er. injection Er as <-.
  split; [reflexivity|]. split; [left; reflexivity|].
  exact (allowed_result_flags _ _ _ sales_pitch E eq_refl (or_introl eq_refl)).
Defined.


(** ** Matches are pieces of the text *)

Lemma search_match_from (icase : bool) (r : regex) (txt : jsstring) :
  forall before,
    search icase r before txt = true
    <-> match_from icase r before txt 0 <> [].
Proof.
  induction txt as [|c tl IH]; intros before; cbn [search match_from].
  - destruct (match_at icase r before []); split; congruence.
  - destruct (match_at icase r before (c :: tl)).
    + split; [discriminate | reflexivity].
    + apply IH.
Qed.

(** [re.test(s)] holds exactly when [s.match(re)] with the [g] flag is not
    [null]. *)
Lemma regex_test_match_all (icase : bool) (r : regex) (s : jsstring) :
  regex_test icase r s = true <-> match_all icase r s <> [].
Proof. apply search_match_from. Qed.

Lemma infix_cons (w s : jsstring) (c : ascii) : infix w s -> infix w (c :: s).
Proof. intros (pre & post & ->). exists (c :: pre), post. reflexivity. Qed.

Lemma match_from_infix (icase : bool) (r : regex) (txt : jsstring) :
  forall before skip w,
    In w (match_from icase r before txt skip) -> infix w txt.
Proof.
  induction txt as [|c tl IH]; intros before skip w; cbn [match_from].
  - destruct skip; [|intros []].
    destruct (match_at icase r before []); [|intros []].
    intros [<- | []]. exists [], []. reflexivity.
  - destruct skip as [|n].
    + destruct (match_at icase r before (c :: tl)) as [e|].
      * intros [<- | H].
        -- exists [], (skipn (length (c :: tl) - length (rest e)) (c :: tl)).
           cbn [app]. symmetry. apply firstn_skipn.
        -- apply infix_cons. exact (IH _ _ _ H).
      * intros H. apply infix_cons. exact (IH _ _ _ H).
    + intros H. apply infix_cons. exact (IH _ _ _ H).
Qed.

Lemma match_all_infix (icase : bool) (r : regex) (s w : jsstring) :
  In w (match_all icase r s) -> infix w s.
Proof. apply match_from_infix. Qed.

Lemma startsWith_app (p post : jsstring) : startsWith (p ++ post) p = true.
Proof.
  induction p as [|x p IH]; [destruct post; reflexivity|].
  cbn. rewrite Ascii.eqb_refl. exact IH.
Qed.

Lemma startsWith_firstn (s p : jsstring) :
  startsWith s p = true -> firstn (length p) s = p.
Proof.
  revert s. induction p as [|x p IH]; intros s; [reflexivity|].
  destruct s as [|y s]; [discriminate|]. cbn.
  intros H. apply andb_true_iff in H. destruct H as [Hxy H].
  apply Ascii.eqb_eq in Hxy. subst y. f_equal. apply IH. exact H.
Qed.

Lemma startsWith_length (s p : jsstring) :
  startsWith s p = true -> (length p <= length s)%nat.
Proof.
  intros H. apply startsWith_firstn in H.
  rewrite <- H at 1. rewrite length_firstn. lia.
Qed.

(** What [indexOf] finds: the piece of the text at the position found is the
    string looked for. *)
Lemma index_of_spec (s p : jsstring) :
  forall i, index_of s p = Some i ->
    firstn (length p) (skipn i s) = p /\ (i + length p <= length s)%nat.
Proof.
  induction s as [|c s IH]; intros i; cbn [index_of].
  - destruct (startsWith [] p) eqn:E; [|discriminate].
    intros [= <-]. split; [apply startsWith_firstn, E|].
    apply startsWith_length in E. exact E.
  - destruct (startsWith (c :: s) p) eqn:E.
    + intros [= <-]. split; [apply startsWith_firstn, E|].
      apply startsWith_length in E. exact E.
    + destruct (index_of s p) as [j|]; [|discriminate].
      intros [= <-]. destruct (IH j eq_refl) as [H1 H2].
      split; [exact H1 | cbn; lia].
Qed.

Lemma index_of_unfold (s p : jsstring) :
  index_of s p =
  if startsWith s p then Some 0%nat
  else match s with
       | [] => None
       | _ :: s' => option_map S (index_of s' p)
       end.
Proof. destruct s; reflexivity. Qed.

Lemma index_of_infix (s w : jsstring) :
  infix w s -> exists i, index_of s w = Some i.
Proof.
  intros (pre & post & ->). induction pre as [|c pre IH].
  - cbn [app]. exists 0%nat.
    rewrite index_of_unfold, startsWith_app. reflexivity.
  - cbn [app]. rewrite index_of_unfold.
    destruct (startsWith (c :: pre ++ w ++ post) w); [exists 0%nat; reflexivity|].
    destruct IH as (i & ->). exists (S i). reflexivity.
Qed.


(** ** What [detectPHI] collects *)

Lemma count_ge_1 {A : Type} (x : A) (l : list A) : 1 <= count (x :: l).
Proof. rewrite count_cons. pose proof (count_nonneg l). lra. Qed.

Lemma phi_step_detections (text : jsstring) (st : phi_state) (p : Pattern) :
  fst (phi_step text st p)
  = fst st ++ match matches_of p text with
              | [] => []
              | ms => [ {| d_type := p_type p; d_matches := ms;
                           d_weight := p_weight p |} ]
              end.
Proof.
  unfold phi_step. destruct (matches_of p text); [|reflexivity].
  symmetry. apply app_nil_r.
Qed.

Lemma phi_fold_detections (text : jsstring) (l : list Pattern) :
  forall st,
    fst (fold_left (phi_step text) l st)
    = fst st
      ++ flat_map
           (fun p =>
              match matches_of p text with
              | [] => []
              | ms => [ {| d_type := p_type p; d_matches := ms;
                           d_weight := p_weight p |} ]
              end) l.
Proof.
  induction l as [|p l IH]; intros st; cbn [fold_left flat_map].
  - symmetry. apply app_nil_r.
  - rewrite IH, phi_step_detections, <- app_assoc. reflexivity.
Qed.

Lemma validate_loop_detections (h : Host) (phones : list jsstring) :
  forall st,
    exists st',
      validate_loop h st phones = Normal st'
      /\ fst st'
         = fst st
           ++ map (fun phone => {| d_type := "validated_phone";
                                   d_matches := [phone]; d_weight := 0.9 |})
                (filter (validated h) phones).
Proof.
  induction phones as [|phone more IH]; intros st; cbn [validate_loop filter].
  - exists st. split; [reflexivity|]. symmetry. apply app_nil_r.
  - unfold validate_step, validated at 1.
    destruct (isValidPhoneNumber h phone) as [[|]|]; cbn [bind try_catch].
    + destruct (IH (fst st ++ [ {| d_type := "validated_phone";
                                   d_matches := [phone]; d_weight := 0.9 |} ],
                    snd st + 0.9)) as (st' & E & Hst').
      exists st'. split; [exact E|].
      rewrite Hst'. cbn [fst map]. rewrite <- app_assoc. reflexivity.
    + apply IH.
    + apply IH.
Qed.

(** The result of [detectPHI] in closed form: the detections of the table,
    then one per validated phone number; the score is the clamped sum. *)
Lemma detectPHI_closed_form (h : Host) (text : jsstring) :
  exists r,
    detectPHI h text = Normal r
    /\ phi_detections r = table_detections text ++ validated_detections h text
    /\ phi_score_of r
       == Qmin (table_total text
                + 0.9 * count (filter (validated h)
                                 (match_all false phone_regex text))) 1.0.
Proof.
  unfold detectPHI.
  destruct (phi_total_double_count h text) as (st & E & Hsum).
  destruct (validate_loop_detections h (match_all false phone_regex text)
              (fold_left (phi_step text) PHI_PATTERNS ([], 0)))
    as (st' & E' & Hdet).
  unfold phi_total in E. rewrite E' in E. cbn [try_catch] in E.
  injection E as ->.
  unfold phi_total. rewrite E'. cbn [try_catch bind].
  eexists. split; [reflexivity|]. cbn [phi_detections phi_score_of]. split.
  - rewrite Hdet, phi_fold_detections. reflexivity.
  - rewrite Hsum. reflexivity.
Qed.

Lemma fold_left_contribution {A B : Type} (step : A * Q -> B -> A * Q)
    (l : list B) (p : B) (c : Q) :
  (forall st b, In b l -> snd st <= snd (step st b)) ->
  (forall st, snd st + c <= snd (step st p)) ->
  In p l ->
  forall st, snd st + c <= snd (fold_left step l st).
Proof.
  induction l as [|b l IH]; intros Hmono Hp Hin st; [contradiction|].
  cbn [fold_left].
  assert (Hmono' : forall st b', In b' l -> snd st <= snd (step st b')).
  { intros st' b' Hb'. apply Hmono. right. exact Hb'. }
  assert (Hgrow : forall l' st', (forall st b', In b' l' ->
                                    snd st <= snd (step st b')) ->
                                 snd st' <= snd (fold_left step l' st')).
  { clear. induction l' as [|b l' IH]; intros st' H; cbn [fold_left];
      [apply Qle_refl|].
    apply Qle_trans with (y := snd (step st' b)).
    - apply H. left. reflexivity.
    - apply IH. intros st b' Hb'. apply H. right. exact Hb'. }
  destruct Hin as [-> | Hin].
  - apply Qle_trans with (y := snd (step st p)); [apply Hp|].
    apply Hgrow, Hmono'.
  - apply Qle_trans with (y := snd (step st b) + c).
    + apply Qplus_le_compat; [|apply Qle_refl]. apply Hmono. left. reflexivity.
    + apply IH; assumption.
Qed.

Lemma phi_weights_ge (p : Pattern) : In p PHI_PATTERNS -> 0.4 <= p_weight p.
Proof.
  unfold PHI_PATTERNS. cbn [In].
  intros H. repeat (destruct H as [<-|H]; [discriminate|]). contradiction.
Qed.

Lemma table_total_ge (text : jsstring) (p : Pattern) :
  In p PHI_PATTERNS -> matches_of p text <> [] ->
  p_weight p <= table_total text.
Proof.
  intros Hin Hm. unfold table_total.
  apply Qle_trans with (y := snd (@nil Detection, 0) + p_weight p);
    [cbn [snd]; lra|].
  apply fold_left_contribution with (p := p); [| |exact Hin].
  - intros st b Hb. unfold phi_step.
    destruct (matches_of b text) as [|x l]; [apply Qle_refl|]. cbn [snd].
    pose proof (phi_weights_nonneg b Hb).
    pose proof (count_nonneg (x :: l)).
    assert (0 <= p_weight b * count (x :: l))
      by (apply Qmult_le_0_compat; assumption).
    lra.
  - intros st. unfold phi_step.
    destruct (matches_of p text) as [|x l]; [contradiction|]. cbn [snd].
    pose proof (phi_weights_nonneg p Hin).
    pose proof (count_ge_1 x l).
    assert (p_weight p * 1 <= p_weight p * count (x :: l)).
    { rewrite !(Qmult_comm (p_weight p)).
      apply Qmult_le_compat_r; assumption. }
    lra.
Qed.

Lemma table_detections_nil (text : jsstring) :
  table_detections text = []
  <-> forall p, In p PHI_PATTERNS -> matches_of p text = [].
Proof.
  unfold table_detections. generalize PHI_PATTERNS as l.
  induction l as [|p l IH]; cbn [flat_map].
  - split; [intros _ p [] | reflexivity].
  - split.
    + intros H. apply app_eq_nil in H. destruct H as [Hp Hl].
      intros q [<- | Hq].
      * destruct (matches_of p text); [reflexivity | discriminate].
      * apply IH; assumption.
    + intros H. rewrite (H p (or_introl eq_refl)). cbn [app].
      apply IH. intros q Hq. apply H. right. exact Hq.
Qed.

Lemma table_total_nil (text : jsstring) :
  (forall p, In p PHI_PATTERNS -> matches_of p text = []) ->
  fold_left (phi_step text) PHI_PATTERNS ([], 0) = ([], 0).
Proof.
  generalize PHI_PATTERNS as l.
  induction l as [|p l IH]; intros H; cbn [fold_left]; [reflexivity|].
  unfold phi_step at 2. rewrite (H p (or_introl eq_refl)).
  apply IH. intros q Hq. apply H. right. exact Hq.
Qed.

(** ** Scores that block *)

Lemma status_of_blocked (sc : ScoreVector) :
  gt (phi_score sc) 0.2 = true \/ gt (spam_score sc) 0.3 = true
  \/ gt (link_risk_score sc) 0.5 = true ->
  status_of sc <> ALLOW.
Proof.
  intros H. unfold status_of.
  destruct (gt (toxicity_score sc) 0); [discriminate|].
  destruct (gt (phi_score sc) 0.5); [discriminate|].
  destruct (_ && _); [discriminate|].
  destruct (gt (spam_score sc) 0.7); [discriminate|].
  destruct (_ || _); [discriminate|].
  destruct (gt (phi_score sc) 0.2), (gt (spam_score sc) 0.3),
    (gt (link_risk_score sc) 0.5); try discriminate.
  destruct H as [H|[H|H]]; discriminate.
Qed.

Lemma flags_of_in (sc : ScoreVector) :
  (gt (phi_score sc) 0.3 = true -> In phi_detected (flags_of sc))
  /\ (gt (spam_score sc) 0.5 = true -> In spam_detected (flags_of sc))
  /\ (gt (link_risk_score sc) 0.6 = true -> In suspicious_links (flags_of sc)).
Proof.
  unfold flags_of. repeat split; intros ->;
    repeat (apply in_or_app; first [left; left; reflexivity | right]);
    left; reflexivity.
Qed.


Lemma matches_of_test (p : Pattern) (text : jsstring) :
  regex_test (p_icase p) (p_regex p) text = true <-> matches_of p text <> [].
Proof. apply regex_test_match_all. Qed.

Lemma spans_of_in (text : jsstring) (dets : list Detection) (sp : DetectedSpan) :
  In sp (spans_of text dets)
  <-> exists det mtch,
        In det dets /\ In mtch (d_matches det)
        /\ sp = {| span_text := mtch; span_type := "phi";
                   span_subtype := d_type det;
                   span_start := indexOf text mtch;
                   span_end := indexOf text mtch + Z.of_nat (length mtch) |}.
Proof.
  unfold spans_of. rewrite in_flat_map. split.
  - intros (det & Hdet & Hsp). apply in_map_iff in Hsp.
    destruct Hsp as (mtch & <- & Hm). exists det, mtch. auto.
  - intros (det & mtch & Hdet & Hm & ->). exists det. split; [exact Hdet|].
    apply in_map_iff. exists mtch. auto.
Qed.

Lemma table_detections_in (text : jsstring) (det : Detection) :
  In det (table_detections text)
  <-> exists p, In p PHI_PATTERNS /\ matches_of p text <> []
                /\ det = {| d_type := p_type p; d_matches := matches_of p text;
                            d_weight := p_weight p |}.
Proof.
  unfold table_detections. rewrite in_flat_map. split.
  - intros (p & Hp & Hdet). exists p. split; [exact Hp|].
    destruct (matches_of p text) as [|x l]; [contradiction|].
    destruct Hdet as [<- | []]. split; [discriminate | reflexivity].
  - intros (p & Hp & Hne & ->). exists p. split; [exact Hp|].
    destruct (matches_of p text) as [|x l]; [contradiction|].
    left. reflexivity.
Qed.

Lemma scan_phi (h : Host) (c : ascii) (tl : jsstring) (userId ctx : jsval) :
  exists r,
    scan h {| in_text := JStr (c :: tl); in_userId := userId;
              in_context := ctx |} = Normal r
    /\ phi_score (scores r)
       == Qmin (table_total (c :: tl)
                + 0.9 * count (filter (validated h)
                                 (match_all false phone_regex (c :: tl)))) 1.0
    /\ detectedSpans r
       = spans_of (c :: tl)
           (table_detections (c :: tl) ++ validated_detections h (c :: tl))
    /\ status r = status_of (scores r)
    /\ flags r = flags_of (scores r).
Proof.
  rewrite scan_valid.
  destruct (scan_text_unfold h (c :: tl) userId ctx)
    as (phi & tox & t & Ephi & _ & _ & ->).
  destruct (detectPHI_closed_form h (c :: tl)) as (phi' & Ephi' & Hdet & Hsc).
  rewrite Ephi in Ephi'. injection Ephi' as <-.
  eexists. split; [reflexivity|].
  cbn [scores status flags detectedSpans assemble phi_score].
  split; [exact Hsc|]. split; [rewrite Hdet; reflexivity|].
  split; reflexivity.
Qed.

(** X3. When one of the seven patterns of the PHI table matches somewhere in
    a valid text, the PHI score is at least 0.4 (the smallest weight of the
    table), the result carries the flag [phi_detected] and at least one
    detected span, and the status is never [ALLOW]. *)
Theorem phi_pattern_never_allowed (h : Host) (c : ascii) (tl : jsstring)
    (userId ctx : jsval) (p : Pattern) :
  In p PHI_PATTERNS ->
  regex_test (p_icase p) (p_regex p) (c :: tl) = true ->
  exists r,
    scan h {| in_text := JStr (c :: tl); in_userId := userId;
              in_context := ctx |} = Normal r
    /\ 0.4 <= phi_score (scores r)
    /\ In phi_detected (flags r)
    /\ detectedSpans r <> []
    /\ status r <> ALLOW.
Proof.
  intros Hp Hm. apply matches_of_test in Hm.
  destruct (scan_phi h c tl userId ctx) as (r & E & Hsc & Hsp & Hst & Hfl).
  exists r. split; [exact E|].
  assert (Hge : 0.4 <= phi_score (scores r)).
  { rewrite Hsc. apply Q.min_glb; [|discriminate].
    pose proof (table_total_ge (c :: tl) p Hp Hm).
    pose proof (phi_weights_ge p Hp).
    pose proof (count_nonneg (filter (validated h)
                                (match_all false phone_regex (c :: tl)))).
    lra. }
  split; [exact Hge|]. split; [|split].
  - rewrite Hfl. apply flags_of_in. apply gt_true. lra.
  - rewrite Hsp.
    destruct (matches_of p (c :: tl)) as [|x l] eqn:Ex; [contradiction|].
    intros Hnil.
    assert (Hin : In {| span_text := x; span_type := "phi";
                        span_subtype := p_type p;
                        span_start := indexOf (c :: tl) x;
                        span_end := indexOf (c :: tl) x + Z.of_nat (length x) |}
                    (spans_of (c :: tl)
                       (table_detections (c :: tl)
                        ++ validated_detections h (c :: tl)))).
    { apply spans_of_in.
      exists {| d_type := p_type p; d_matches := x :: l;
                d_weight := p_weight p |}, x.
      split; [|split; [left; reflexivity | reflexivity]].
      apply in_or_app. left. apply table_detections_in.
      exists p. rewrite Ex. split; [exact Hp|]. split; [discriminate|].
      reflexivity. }
    rewrite Hnil in Hin. contradiction.
  - rewrite Hst. apply status_of_blocked. left. apply gt_true. lra.
Qed.

(** An e-mail address is PHI whatever the host: the text is blocked. *)
Lemma phi_pattern_never_allowed_witness :
  exists r,
    scan (fallback_host failing_lookup 0)
      (text_input "write to jo@mail.org" JUndefined JUndefined) = Normal r
    /\ In phi_detected (flags r) /\ status r <> ALLOW.
Proof.
  destruct (phi_pattern_never_allowed (fallback_host failing_lookup 0)
              "w" (js "rite to jo@mail.org") JUndefined JUndefined
              (nth 2 PHI_PATTERNS (hd (nth 0 PHI_PATTERNS
                 {| p_icase := false; p_regex := Eps; p_type := "";
                    p_weight := 0 |}) [])))
    as (r & E & _ & Hf & _ & Hs).
  - cbn. auto.
  - vm_compute. reflexivity.
  - exists r. split; [exact E|]. split; assumption.
Defined.

Lemma flags_of_phi (sc : ScoreVector) :
  In phi_detected (flags_of sc) -> gt (phi_score sc) 0.3 = true.
Proof.
  unfold flags_of.
  destruct (gt (phi_score sc) 0.3); [reflexivity|].
  destruct (gt (spam_score sc) 0.5), (gt (sales_pitch_score sc) 0.6),
    (gt (toxicity_score sc) 0), (gt (link_risk_score sc) 0.6); cbn;
    intros H; repeat (destruct H as [H|H]; try discriminate); contradiction.
Qed.

(** X4. When none of the seven patterns of the PHI table matches in a valid
    text, the PHI score is 0, there is no detected span and no flag
    [phi_detected], whatever the phone validator of the host answers. *)
Theorem no_phi_pattern_no_phi (h : Host) (c : ascii) (tl : jsstring)
    (userId ctx : jsval) :
  (forall p, In p PHI_PATTERNS ->
             regex_test (p_icase p) (p_regex p) (c :: tl) = false) ->
  exists r,
    scan h {| in_text := JStr (c :: tl); in_userId := userId;
              in_context := ctx |} = Normal r
    /\ phi_score (scores r) == 0
    /\ detectedSpans r = []
    /\ ~ In phi_detected (flags r).
Proof.
  intros Hnone.
  assert (Hm : forall p, In p PHI_PATTERNS -> matches_of p (c :: tl) = []).
  { intros p Hp. specialize (Hnone p Hp).
    destruct (matches_of p (c :: tl)) eqn:E; [reflexivity|].
    assert (regex_test (p_icase p) (p_regex p) (c :: tl) = true)
      by (apply matches_of_test; rewrite E; discriminate).
    congruence. }
  assert (Hphones : match_all false phone_regex (c :: tl) = []).
  { apply (Hm (nth 0 PHI_PATTERNS
                 {| p_icase := false; p_regex := Eps; p_type := "";
                    p_weight := 0 |})). cbn. auto. }
  destruct (scan_phi h c tl userId ctx) as (r & E & Hsc & Hsp & Hst & Hfl).
  exists r. split; [exact E|].
  assert (Hzero : phi_score (scores r) == 0).
  { rewrite Hsc, Hphones. unfold table_total.
    rewrite (table_total_nil _ Hm). reflexivity. }
  split; [exact Hzero|]. split.
  - rewrite Hsp. unfold validated_detections. rewrite Hphones.
    apply table_detections_nil in Hm. rewrite Hm. reflexivity.
  - rewrite Hfl. intros Hin. apply flags_of_phi in Hin.
    apply gt_true in Hin. lra.
Qed.

Lemma no_phi_pattern_no_phi_witness :
  exists r,
    scan (fallback_host failing_lookup 0)
      (text_input "good morning" JUndefined JUndefined) = Normal r
    /\ phi_score (scores r) == 0 /\ detectedSpans r = [].
Proof.
  destruct (no_phi_pattern_no_phi (fallback_host failing_lookup 0)
              "g" (js "ood morning") JUndefined JUndefined)
    as (r & E & Hz & Hs & _).
  - intros p Hp. cbn in Hp.
    repeat (destruct Hp as [<-|Hp]; [vm_compute; reflexivity|]).
    contradiction.
  - exists r. split; [exact E|]. split; assumption.
Defined.

(** X5. Every detected span lies in the text: its [text] occurs in the
    scanned text, [start] is the position of the first occurrence
    ([indexOf], never -1), [end] is [start] plus the length, [end] does not
    exceed the length of the text, and the piece of the text from [start] to
    [end] is the span's [text]. *)
Theorem detected_spans_located (h : Host) (input : ModerationInput)
    (r : ModerationResult) (sp : DetectedSpan) :
  scan h input = Normal r ->
  In sp (detectedSpans r) ->
  exists text,
    in_text input = JStr text
    /\ span_type sp = "phi"%string
    /\ infix (span_text sp) text
    /\ span_start sp = indexOf text (span_text sp)
    /\ (0 <= span_start sp)%Z
    /\ span_end sp = (span_start sp + Z.of_nat (length (span_text sp)))%Z
    /\ (span_end sp <= Z.of_nat (length text))%Z
    /\ substring (Z.to_nat (span_start sp)) (Z.to_nat (span_end sp)) text
       = span_text sp.
Proof.
  intros E Hin. apply scan_shape in E. destruct E as [-> | E]; [contradiction|].
  destruct E as (text & phi & tox & t & Etext & _ & Ephi & _ & _ & _ & _ & _
                 & Hsp).
  destruct (detectPHI_closed_form h text) as (phi' & Ephi' & Hdet & _).
  rewrite Ephi in Ephi'. injection Ephi' as <-.
  rewrite Hsp, Hdet in Hin. apply spans_of_in in Hin.
  destruct Hin as (det & mtch & Hd & Hm & ->).
  assert (Hinfix : infix mtch text).
  { apply in_app_or in Hd. destruct Hd as [Hd|Hd].
    - apply table_detections_in in Hd. destruct Hd as (p & _ & _ & ->).
      cbn [d_matches] in Hm. exact (match_all_infix _ _ _ _ Hm).
    - unfold validated_detections in Hd. apply in_map_iff in Hd.
      destruct Hd as (phone & <- & Hphone). cbn [d_matches] in Hm.
      destruct Hm as [<- | []]. apply filter_In in Hphone.
      exact (match_all_infix _ _ _ _ (proj1 Hphone)). }
  exists text. split; [exact Etext|]. cbn [span_type span_text span_start span_end].
  split; [reflexivity|]. split; [exact Hinfix|]. split; [reflexivity|].
  destruct (index_of_infix _ _ Hinfix) as (i & Hi).
  destruct (index_of_spec _ _ _ Hi) as [Hsub Hlen].
  unfold indexOf. rewrite Hi.
  split; [lia|]. split; [reflexivity|]. split; [lia|].
  unfold substring. rewrite <- Nat2Z.inj_add, !Nat2Z.id.
  replace (i + length mtch - i)%nat with (length mtch) by lia.
  exact Hsub.
Qed.

Lemma detected_spans_located_witness :
  exists r sp,
    scan (fallback_host failing_lookup 0)
      (text_input "Call me at 555-123-4567" JUndefined JUndefined) = Normal r
    /\ In sp (detectedSpans r)
    /\ span_start sp = 11%Z /\ span_end sp = 23%Z
    /\ substring 11 23 (js "Call me at 555-123-4567") = js "555-123-4567".
Proof.
  destruct (scan (fallback_host failing_lookup 0)
              (text_input "Call me at 555-123-4567" JUndefined JUndefined))
    as [r|] eqn:E; [|vm_compute in E; discriminate].
  assert (Er := E). vm_compute in Er. injection Er as <-.
  eexists. eexists. split; [reflexivity|].
  split; [left; reflexivity|].
  destruct (detected_spans_located _ _ _ _ E (or_introl eq_refl))
    as (text & Etext & _ & _ & _ & _ & _ & _ & Hsub).
  injection Etext as <-.
  split; [reflexivity|]. split; [reflexivity|]. exact Hsub.
Defined.


(** ** Links *)

Lemma class_has_lower (c : ascii) :
  class_has true (is_char (lower_char c)) c = true.
Proof.
  unfold class_has. rewrite (is_char_refl (lower_char c)).
  apply orb_true_r.
Qed.

(** With the [i] flag the pattern of a lower-case word reads the word in any
    letter case. *)
Lemma m_literal_icase (w : jsstring) :
  forall (k : cont) (before : option ascii) (post : jsstring)
         (cap : option jsstring),
    m true (literal (toLowerCase w)) k (MState before (w ++ post) cap)
    = k (MState (match last_char w with Some c => Some c | None => before end)
           post cap).
Proof.
  unfold literal, toLowerCase.
  induction w as [|x w IH]; intros k before post cap.
  - reflexivity.
  - cbn [map]. rewrite m_seqs_cons. cbn [m chr app rest].
    rewrite class_has_lower. cbn [xorb]. unfold advance. cbn [cap1].
    rewrite IH. destruct w as [|a w]; [reflexivity|].
    change (last_char (x :: a :: w)) with (last_char (a :: w)).
    destruct (last_char_cons a w) as (c & ->). reflexivity.
Qed.

Lemma scan_scores (h : Host) (c : ascii) (tl : jsstring) (userId ctx : jsval) :
  exists r,
    scan h {| in_text := JStr (c :: tl); in_userId := userId;
              in_context := ctx |} = Normal r
    /\ spam_score (scores r) = spam_score_of (detectSpam (c :: tl))
    /\ sales_pitch_score (scores r) = sales_score_of (detectSalesPitch (c :: tl))
    /\ link_risk_score (scores r) = link_score_of (detectLinks (c :: tl))
    /\ status r = status_of (scores r)
    /\ flags r = flags_of (scores r).
Proof.
  rewrite scan_valid.
  destruct (scan_text_unfold h (c :: tl) userId ctx)
    as (phi & tox & t & _ & _ & _ & ->).
  eexists. split; [reflexivity|]. repeat split.
Qed.

Lemma spam_total_ge (text : jsstring) (p : Pattern) :
  In p SPAM_PATTERNS -> matches_of p text <> [] ->
  Qmin (p_weight p) 1.0 <= spam_score_of (detectSpam text).
Proof.
  intros Hin Hm. unfold detectSpam. cbn [spam_score_of].
  apply Q.min_le_compat_r.
  apply Qle_trans with (y := snd (@nil (string * nat), 0) + p_weight p);
    [cbn [snd]; lra|].
  apply fold_left_contribution with (p := p); [| |exact Hin].
  - intros st b Hb. unfold spam_step.
    destruct (matches_of b text) as [|x l]; [apply Qle_refl|]. cbn [snd].
    pose proof (spam_weights_nonneg b Hb).
    assert (0 <= Qmin (count (x :: l)) 3)
      by (apply Q.min_glb; [apply count_nonneg | discriminate]).
    assert (0 <= p_weight b * Qmin (count (x :: l)) 3)
      by (apply Qmult_le_0_compat; assumption).
    lra.
  - intros st. unfold spam_step.
    destruct (matches_of p text) as [|x l]; [contradiction|]. cbn [snd].
    pose proof (spam_weights_nonneg p Hin).
    assert (1 <= Qmin (count (x :: l)) 3)
      by (apply Q.min_glb; [apply count_ge_1 | discriminate]).
    assert (p_weight p * 1 <= p_weight p * Qmin (count (x :: l)) 3).
    { rewrite !(Qmult_comm (p_weight p)).
      apply Qmult_le_compat_r; assumption. }
    lra.
Qed.

(** The third spam pattern, [/(?:www\.|http)/gi]. *)
Lemma urls_pattern_in :
  In {| p_icase := true; p_regex := Alt (lit "www.") (lit "http");
        p_type := "urls"; p_weight := 0.5 |} SPAM_PATTERNS.
Proof. cbn. auto. Qed.

Lemma urls_pattern_matches (pre w post : jsstring) :
  toLowerCase w = js "http" \/ toLowerCase w = js "www." ->
  regex_test true (Alt (lit "www.") (lit "http")) (pre ++ w ++ post) = true.
Proof.
  intros Hw. unfold regex_test. apply search_app.
  unfold match_at. cbn [m]. unfold lit.
  destruct Hw as [Hw|Hw]; rewrite <- Hw.
  - destruct (m true (literal (js "www.")) _ _); [discriminate|].
    rewrite m_literal_icase. discriminate.
  - rewrite m_literal_icase. discriminate.
Qed.

(** X6. A valid text in which "http" or "www." occurs anywhere, in any
    letter case, gets a spam score of at least 0.5 and is never given the
    status [ALLOW]. *)
Theorem link_never_allowed (h : Host) (pre w post : jsstring)
    (userId ctx : jsval) :
  toLowerCase w = js "http" \/ toLowerCase w = js "www." ->
  exists r,
    scan h {| in_text := JStr (pre ++ w ++ post); in_userId := userId;
              in_context := ctx |} = Normal r
    /\ 0.5 <= spam_score (scores r)
    /\ status r <> ALLOW.
Proof.
  intros Hw.
  pose proof (urls_pattern_matches pre w post Hw) as Hm.
  destruct (pre ++ w ++ post) as [|c tl] eqn:Etext;
    [vm_compute in Hm; discriminate|].
  destruct (scan_scores h c tl userId ctx) as (r & E & Hspam & _ & _ & Hst & _).
  exists r. split; [exact E|].
  assert (Hge : 0.5 <= spam_score (scores r)).
  { rewrite Hspam.
    apply Qle_trans with (y := Qmin 0.5 1.0); [discriminate|].
    apply (spam_total_ge (c :: tl) _ urls_pattern_in).
    apply matches_of_test. exact Hm. }
  split; [exact Hge|].
  rewrite Hst. apply status_of_blocked. right. left. apply gt_true. lra.
Qed.

Lemma link_never_allowed_witness :
  exists r,
    scan (fallback_host failing_lookup 0)
      (text_input "see WWW.example.org" JUndefined JUndefined) = Normal r
    /\ status r <> ALLOW.
Proof.
  destruct (link_never_allowed (fallback_host failing_lookup 0)
              (js "see ") (js "WWW.") (js "example.org") JUndefined JUndefined)
    as (r & E & _ & Hs).
  - right. reflexivity.
  - exists r. split; [exact E | exact Hs].
Defined.

(** X7. When one of the URLs found in a valid text contains the name of a
    link shortener of the deny list ("bit.ly", "tinyurl", "t.co", "goo.gl")
    as a substring, the link risk score is at least 0.7, the result carries
    the flag [suspicious_links] and the status is never [ALLOW]. *)
Theorem shortener_flagged (h : Host) (c : ascii) (tl : jsstring)
    (userId ctx : jsval) (url dom : jsstring) :
  In url (match_all true url_regex (c :: tl)) ->
  In dom suspiciousDomains ->
  includes url dom = true ->
  exists r,
    scan h {| in_text := JStr (c :: tl); in_userId := userId;
              in_context := ctx |} = Normal r
    /\ 0.7 <= link_risk_score (scores r)
    /\ In suspicious_links (flags r)
    /\ status r <> ALLOW.
Proof.
  intros Hurl Hdom Hinc.
  destruct (scan_scores h c tl userId ctx) as (r & E & _ & _ & Hlink & Hst & Hfl).
  exists r. split; [exact E|].
  assert (Hge : 0.7 <= link_risk_score (scores r)).
  { rewrite Hlink. unfold detectLinks. cbn [link_score_of].
    replace (existsb _ (match_all true url_regex (c :: tl))) with true.
    2:{ symmetry. apply existsb_exists. exists url. split; [exact Hurl|].
        apply existsb_exists. exists dom. split; assumption. }
    apply Q.min_glb; [|discriminate].
    destruct (match_all true url_regex (c :: tl)) as [|u us];
      [contradiction|].
    pose proof (count_ge_1 u us).
    pose proof (count_nonneg (match_all true domain_regex (c :: tl))).
    lra. }
  split; [exact Hge|]. split.
  - rewrite Hfl. apply flags_of_in. apply gt_true. lra.
  - rewrite Hst. apply status_of_blocked. right. right. apply gt_true. lra.
Qed.

(** "t.co" is a substring of the host name in this address. *)
Lemma shortener_flagged_witness :
  exists r,
    scan (fallback_host failing_lookup 0)
      (text_input "http://pinterest.com/pin" JUndefined JUndefined) = Normal r
    /\ In suspicious_links (flags r).
Proof.
  destruct (shortener_flagged (fallback_host failing_lookup 0)
              "h" (js "ttp://pinterest.com/pin") JUndefined JUndefined
              (js "http://pinterest.com/pin") (js "t.co"))
    as (r & E & _ & Hf & _).
  - vm_compute. auto.
  - vm_compute. auto.
  - vm_compute. reflexivity.
  - exists r. split; [exact E | exact Hf].
Defined.


(** ** Stems inside longer words *)

Lemma check_pattern_true (t p : jsstring) (b : bool) :
  check_pattern t p = Some b -> b = true.
Proof.
  unfold check_pattern.
  destruct (length p <? 2)%nat; [discriminate|].
  destruct (index_of t p) as [i|]; [|discriminate].
  destruct (_ || _ || _ || _); [intros [= <-]; reflexivity|].
  destruct (length p <=? 3)%nat; [|intros [= <-]; reflexivity].
  destruct (_ || _ || _); [intros [= <-]; reflexivity | discriminate].
Qed.

Lemma check_pattern_long (t p : jsstring) :
  (4 <= length p)%nat -> includes t p = true ->
  check_pattern t p = Some true.
Proof.
  intros Hlen Hinc. unfold includes in Hinc. unfold check_pattern.
  replace (length p <? 2)%nat with false
    by (symmetry; apply Nat.ltb_ge; lia).
  destruct (index_of t p) as [i|]; [|discriminate].
  destruct (_ || _ || _ || _); [reflexivity|].
  replace (length p <=? 3)%nat with false
    by (symmetry; apply Nat.leb_gt; lia).
  reflexivity.
Qed.

Lemma check_patterns_in (t p : jsstring) (patterns : list jsstring) :
  In p patterns -> check_pattern t p = Some true ->
  check_patterns t patterns = true.
Proof.
  intros Hin Hp. induction patterns as [|q patterns IH]; [contradiction|].
  cbn [check_patterns].
  destruct (check_pattern t q) as [b|] eqn:E.
  - apply check_pattern_true in E. exact E.
  - destruct Hin as [-> | Hin]; [congruence | exact (IH Hin)].
Qed.

Lemma includes_length (t p : jsstring) :
  includes t p = true -> (length p <= length t)%nat.
Proof.
  unfold includes. destruct (index_of t p) as [i|] eqn:E; [|discriminate].
  intros _. apply index_of_spec in E. lia.
Qed.

Lemma scan_toxic (h : Host) (c : ascii) (tl : jsstring) (userId ctx : jsval) :
  detectToxicity h (c :: tl)
  = Normal {| tox_score_of := 1.0; tox_isProfane := true |} ->
  exists r,
    scan h {| in_text := JStr (c :: tl); in_userId := userId;
              in_context := ctx |} = Normal r
    /\ toxicity_score (scores r) = 1.0
    /\ status r = REJECT.
Proof.
  intros Htox. rewrite scan_valid.
  destruct (scan_text_unfold h (c :: tl) userId ctx)
    as (phi & tox & t & _ & Etox & _ & ->).
  rewrite Htox in Etox. injection Etox as <-.
  eexists. split; [reflexivity|]. cbn [scores status assemble toxicity_score].
  split; [reflexivity|]. apply status_of_toxic. reflexivity.
Qed.

(** X8. When the normalised form of a valid text contains, anywhere, an entry
    of the profanity pattern list that is four characters long or more (for
    instance "kill" in "skilled", or across the words of "bask illness"),
    [checkProfanityPatterns] answers true: the toxicity score is 1 and [scan]
    answers [REJECT].  The boundary tests of the loop only ever filter the
    entries of two or three characters. *)
Theorem long_stem_rejects (h : Host) (c : ascii) (tl : jsstring)
    (userId ctx : jsval) (p : jsstring) :
  In p profanityPatterns ->
  (4 <= length p)%nat ->
  includes (normalizeTextForDetection (c :: tl)) p = true ->
  checkProfanityPatterns (normalizeTextForDetection (c :: tl)) = true
  /\ detectToxicity h (c :: tl)
     = Normal {| tox_score_of := 1.0; tox_isProfane := true |}
  /\ exists r,
       scan h {| in_text := JStr (c :: tl); in_userId := userId;
                 in_context := ctx |} = Normal r
       /\ status r = REJECT.
Proof.
  intros Hin Hlen Hinc.
  assert (Hcheck : checkProfanityPatterns (normalizeTextForDetection (c :: tl))
                   = true).
  { unfold checkProfanityPatterns.
    pose proof (includes_length _ _ Hinc).
    replace (length (normalizeTextForDetection (c :: tl)) <? 2)%nat with false
      by (symmetry; apply Nat.ltb_ge; lia).
    apply (check_patterns_in _ p); [exact Hin|].
    apply check_pattern_long; assumption. }
  assert (Htox : detectToxicity h (c :: tl)
                 = Normal {| tox_score_of := 1.0; tox_isProfane := true |}).
  { rewrite detectToxicity_signals. unfold hasObfuscatedProfanity at 1.
    rewrite Hcheck, orb_true_r. reflexivity. }
  split; [exact Hcheck|]. split; [exact Htox|].
  destruct (scan_toxic h c tl userId ctx Htox) as (r & E & _ & Hs).
  exists r. split; assumption.
Qed.

Lemma long_stem_rejects_witness :
  exists r,
    scan (fallback_host failing_lookup 0)
      (text_input "Skilled nurses" JUndefined JUndefined) = Normal r
    /\ status r = REJECT.
Proof.
  destruct (long_stem_rejects (fallback_host failing_lookup 0)
              "S" (js "killed nurses") JUndefined JUndefined (js "kill"))
    as (_ & _ & r & E & Hs).
  - vm_compute. tauto.
  - vm_compute. lia.
  - vm_compute. reflexivity.
  - exists r. split; assumption.
Defined.

(** ** Separators and letter case *)

Lemma replace_class_empty (p : ascii -> bool) (txt : jsstring) :
  forall before,
    replace_from false (Class false p) (const_repl "") before txt 0
    = filter (fun c => negb (p c)) txt.
Proof.
  induction txt as [|c tl IH]; intros before; [reflexivity|].
  cbn [replace_from filter]. unfold match_at. cbn [m rest class_has xorb].
  destruct (p c); cbn [negb].
  - cbn [advance rest]. rewrite const_repl_empty. cbn [app].
    replace (length (c :: tl) - length tl)%nat with 1%nat
      by (cbn [length]; lia).
    cbn [Nat.eqb Nat.sub app]. apply IH.
  - f_equal. apply IH.
Qed.

Lemma toLowerCase_filter_lower (f : ascii -> bool) (s : jsstring) :
  toLowerCase (filter f (toLowerCase s)) = filter f (toLowerCase s).
Proof.
  unfold toLowerCase. induction s as [|c s IH]; [reflexivity|].
  cbn [map filter]. destruct (f (lower_char c)); [|exact IH].
  cbn [map]. rewrite lower_char_idem, IH. reflexivity.
Qed.

Lemma filter_idem {A : Type} (f : A -> bool) (l : list A) :
  filter f (filter f l) = filter f l.
Proof.
  induction l as [|x l IH]; [reflexivity|]. cbn [filter].
  destruct (f x) eqn:E; [|exact IH]. cbn [filter]. rewrite E, IH. reflexivity.
Qed.

(** The normalisation sees a text only through its lower-cased form without
    separators. *)
Lemma normalize_canonical (a : jsstring) :
  normalizeTextForDetection a
  = normalizeTextForDetection (strip_separators (toLowerCase a)).
Proof.
  destruct a as [|x a]; [reflexivity|].
  unfold normalizeTextForDetection at 1. cbv zeta.
  unfold any_of, replace_all. rewrite replace_class_empty.
  change (filter _ (toLowerCase (x :: a)))
    with (strip_separators (toLowerCase (x :: a))).
  destruct (strip_separators (toLowerCase (x :: a))) as [|y s] eqn:E;
    [reflexivity|].
  unfold normalizeTextForDetection. cbv zeta.
  unfold any_of, replace_all. rewrite replace_class_empty.
  change (filter _ (toLowerCase (y :: s)))
    with (strip_separators (toLowerCase (y :: s))).
  rewrite <- E. unfold strip_separators.
  rewrite toLowerCase_filter_lower, filter_idem. reflexivity.
Qed.

(** X9. Two texts that differ only in letter case and in separators
    (white space and the characters - _ . * + # @ !, inserted or removed
    anywhere) have the same normalised form, hence the same answer of the
    obfuscation check. *)
Theorem normalize_ignores_separators (a b : jsstring) :
  strip_separators (toLowerCase a) = strip_separators (toLowerCase b) ->
  normalizeTextForDetection a = normalizeTextForDetection b
  /\ hasObfuscatedProfanity a = hasObfuscatedProfanity b.
Proof.
  intros H.
  assert (Hn : normalizeTextForDetection a = normalizeTextForDetection b).
  { rewrite (normalize_canonical a), (normalize_canonical b), H. reflexivity. }
  split; [exact Hn|]. unfold hasObfuscatedProfanity. rewrite Hn. reflexivity.
Qed.

Lemma normalize_ignores_separators_witness :
  normalizeTextForDetection (js "S.h-I_t !") = normalizeTextForDetection (js "shit")
  /\ hasObfuscatedProfanity (js "S.h-I_t !") = true.
Proof.
  destruct (normalize_ignores_separators (js "S.h-I_t !") (js "shit"))
    as [Hn Ho].
  - vm_compute. reflexivity.
  - split; [exact Hn|]. rewrite Ho. vm_compute. reflexivity.
Defined.

(** ** The fallback dictionary *)

Lemma basicProfanity_common (word : jsstring) :
  In word basicProfanity -> In word commonProfanity.
Proof.
  unfold basicProfanity, commonProfanity. cbn [map In].
  intros H. repeat (destruct H as [<-|H]; [auto 12|]). contradiction.
Qed.

Lemma fallback_isProfane_direct (text : jsstring) :
  fallback_isProfane text = Normal true -> hasDirectProfanity text = true.
Proof.
  unfold fallback_isProfane, hasDirectProfanity.
  destruct text as [|c tl]; [discriminate|].
  intros H0.
  assert (H : existsb
                (fun word =>
                   regex_test true (word_regex word) (toLowerCase (c :: tl)))
                basicProfanity = true).
  { exact (f_equal (fun r => match r with Normal b => b | Throw => false end)
             H0). }
  apply existsb_exists in H. destruct H as (word & Hin & Hw).
  apply existsb_exists. exists word.
  split; [apply basicProfanity_common, Hin | exact Hw].
Qed.

(** X10. On a host without the package [bad-words], where the fallback
    dictionary of the source answers for it, the dictionary never decides:
    every text that it flags is flagged by the direct word check too, so the
    result of [detectToxicity] is the one given by the other two signals. *)
Theorem fallback_dictionary_adds_nothing (h : Host) (text : jsstring) :
  isProfane h text = fallback_isProfane text ->
  detectToxicity h text
  = Normal (if hasObfuscatedProfanity text || hasDirectProfanity text
            then {| tox_score_of := 1.0; tox_isProfane := true |}
            else {| tox_score_of := 0; tox_isProfane := false |}).
Proof.
  intros Hdict. destruct text as [|c tl]; [vm_compute; reflexivity|].
  rewrite detectToxicity_signals, Hdict.
  pose proof (fallback_isProfane_direct (c :: tl)) as Hsub.
  destruct (fallback_isProfane (c :: tl)) as [[|]|];
    [rewrite (Hsub eq_refl); destruct (hasObfuscatedProfanity (c :: tl)) | |];
    reflexivity.
Qed.

Lemma fallback_dictionary_adds_nothing_witness :
  detectToxicity (fallback_host failing_lookup 0) (js "what a damn mess")
  = Normal {| tox_score_of := 1.0; tox_isProfane := true |}.
Proof.
  rewrite (fallback_dictionary_adds_nothing (fallback_host failing_lookup 0)
             (js "what a damn mess") eq_refl).
  vm_compute. reflexivity.
Defined.


(** ** More on the sanitizer *)

Lemma last_char_snoc (l : jsstring) (c : ascii) : last_char (l ++ [c]) = Some c.
Proof.
  induction l as [|x l IH]; [reflexivity|].
  cbn [app]. destruct l as [|y l]; [reflexivity|]. exact IH.
Qed.

Lemma last_char_rev (l : jsstring) : last_char (rev l) = hd_error l.
Proof. destruct l as [|c l]; [reflexivity|]. cbn [rev]. apply last_char_snoc. Qed.

Lemma hd_error_rev (l : jsstring) : hd_error (rev l) = last_char l.
Proof. rewrite <- last_char_rev, rev_involutive. reflexivity. Qed.

Lemma trimStart_not_space (s : jsstring) : not_space (hd_error (trimStart s)).
Proof.
  pose proof (trimStart_head s) as H.
  destruct (trimStart s); [exact I | exact H].
Qed.

Lemma trim_trimmed (s : jsstring) : trimmed (trim s).
Proof.
  unfold trimmed, trim. split.
  - pose proof (trimEnd_head (trimStart s) (trimStart_head s)) as H.
    destruct (trimEnd (trimStart s)); [exact I | exact H].
  - unfold trimEnd. rewrite last_char_rev. apply trimStart_not_space.
Qed.

Lemma trim_fixed (s : jsstring) : trimmed s -> trim s = s.
Proof.
  intros [Hhd Hlast]. unfold trim, trimEnd.
  rewrite (trimStart_fixed s) by (destruct s; [exact I | exact Hhd]).
  rewrite (trimStart_fixed (rev s)).
  - apply rev_involutive.
  - rewrite <- hd_error_rev in Hlast.
    destruct (rev s); [exact I | exact Hlast].
Qed.

(** X11. The strings that [sanitizeInput] returns unchanged are exactly the
    strings without the character '<' that neither start nor end with white
    space; every result of [sanitizeInput] is such a string. *)
Theorem sanitizeInput_fixed_points (x : jsstring) :
  (sanitizeInput x = x <-> ~ In "<"%char x /\ trimmed x)
  /\ ~ In "<"%char (sanitizeInput x)
  /\ trimmed (sanitizeInput x).
Proof.
  assert (Hout : ~ In "<"%char (sanitizeInput x) /\ trimmed (sanitizeInput x)).
  { split; [apply sanitizeInput_no_lt|].
    unfold sanitizeInput. apply trim_trimmed. }
  split; [|exact Hout]. split.
  - intros H. rewrite <- H. exact Hout.
  - intros [Hno Htrim]. rewrite (sanitizeInput_clean x Hno).
    apply trim_fixed, Htrim.
Qed.

Lemma replace_empty_shrinks (icase : bool) (r : regex) (txt : jsstring) :
  forall before skip,
    (length (replace_from icase r (const_repl "") before txt skip)
     <= length txt)%nat
    /\ forall c, In c (replace_from icase r (const_repl "") before txt skip) ->
                 In c txt.
Proof.
  induction txt as [|x tl IH]; intros before skip.
  - destruct skip; cbn [replace_from];
      [destruct (match_at icase r before [])|]; cbn; split; auto.
  - destruct skip as [|n]; cbn [replace_from].
    + destruct (match_at icase r before (x :: tl)) as [e|].
      * rewrite const_repl_empty. cbn [app].
        remember (length (x :: tl) - length (rest e))%nat as len.
        destruct (IH (Some x) (len - 1)%nat) as [Hlen Hin].
        destruct (len =? 0)%nat; cbn [app length].
        -- split; [lia|]. intros c [<- | Hc]; [left; reflexivity|].
           right. apply Hin, Hc.
        -- split; [lia|]. intros c Hc. right. apply Hin, Hc.
      * destruct (IH (Some x) 0%nat) as [Hlen Hin]. cbn [length].
        split; [lia|]. intros c [<- | Hc]; [left; reflexivity|].
        right. apply Hin, Hc.
    + destruct (IH (Some x) n) as [Hlen Hin]. cbn [length].
      split; [lia|]. intros c Hc. right. apply Hin, Hc.
Qed.

Lemma trimStart_length (s : jsstring) : (length (trimStart s) <= length s)%nat.
Proof.
  induction s as [|c s IH]; [reflexivity|]. cbn [trimStart].
  destruct (is_space c); cbn [length]; lia.
Qed.

Lemma trim_length (s : jsstring) : (length (trim s) <= length s)%nat.
Proof.
  unfold trim, trimEnd. rewrite length_rev.
  pose proof (trimStart_length (rev (trimStart s))) as H.
  rewrite length_rev in H. pose proof (trimStart_length s). lia.
Qed.

(** X12. [sanitizeInput] only removes: its result is never longer than the
    input and holds no character that the input does not hold. *)
Theorem sanitizeInput_only_removes (x : jsstring) :
  (length (sanitizeInput x) <= length x)%nat
  /\ forall c, In c (sanitizeInput x) -> In c x.
Proof.
  unfold sanitizeInput, replace_all.
  destruct (replace_empty_shrinks true script_block_regex x None 0)
    as [Hlen1 Hin1].
  destruct (replace_empty_shrinks false tag_regex
              (replace_from true script_block_regex (const_repl "") None x 0)
              None 0) as [Hlen2 Hin2].
  split.
  - eapply Nat.le_trans; [apply trim_length|]. lia.
  - intros c Hc. apply trim_incl in Hc. apply Hin1, Hin2, Hc.
Qed.


(** ** The pre-submission checks *)

Lemma sanitizeInput_again (x : jsstring) :
  sanitizeInput (sanitizeInput x) = sanitizeInput x.
Proof.
  rewrite (sanitizeInput_clean _ (sanitizeInput_no_lt x)).
  apply trim_fixed. unfold sanitizeInput. apply trim_trimmed.
Qed.

(** X13. The three pre-submission checks look at the sanitized text only:
    given a text that [sanitizeInput] has already cleaned, as the controllers
    do, each of them answers as on the raw text. *)
Theorem checks_see_sanitized_text (leo : LeoProfanity) (x : jsstring) :
  analyzeTextForModeration leo (sanitizeInput x)
  = analyzeTextForModeration leo x
  /\ checkForPHI (sanitizeInput x) = checkForPHI x
  /\ checkForProhibitedWords (sanitizeInput x) = checkForProhibitedWords x.
Proof.
  unfold analyzeTextForModeration, checkForPHI, checkForProhibitedWords.
  rewrite sanitizeInput_again. repeat split.
Qed.

Lemma match_first_spec (icase : bool) (r : regex) (txt : jsstring) :
  forall before,
    match match_first icase r before txt with
    | Some mtch => search icase r before txt = true /\ infix mtch txt
    | None => search icase r before txt = false
    end.
Proof.
  induction txt as [|c tl IH]; intros before; cbn [match_first search].
  - destruct (match_at icase r before []) as [e|]; [|reflexivity].
    split; [reflexivity|]. exists [], []. reflexivity.
  - destruct (match_at icase r before (c :: tl)) as [e|].
    + split; [reflexivity|].
      exists [], (skipn (length (c :: tl) - length (rest e)) (c :: tl)).
      cbn [app]. symmetry. apply firstn_skipn.
    + specialize (IH (Some c)).
      destruct (match_first icase r (Some c) tl); [|exact IH].
      destruct IH as [Hs Hi]. split; [exact Hs | apply infix_cons, Hi].
Qed.

Lemma first_detection_blocks (patterns : list PhiCheck) (s : jsstring)
    (why : string) (mtch : jsstring) :
  hd_error
    (flat_map
       (fun p =>
          match match_first (c_icase p) (c_regex p) None s with
          | Some m => [(c_reason p, m)]
          | None => []
          end) patterns) = Some (why, mtch) ->
  first_phi_pattern patterns s = Some why /\ infix mtch s.
Proof.
  induction patterns as [|p patterns IH]; cbn [flat_map first_phi_pattern];
    [discriminate|].
  pose proof (match_first_spec (c_icase p) (c_regex p) s None) as Hp.
  unfold regex_test.
  destruct (match_first (c_icase p) (c_regex p) None s) as [m|].
  - destruct Hp as [-> Hi]. cbn [app hd_error]. intros [= <- <-]. auto.
  - rewrite Hp. cbn [app]. exact IH.
Qed.

Lemma Normal_inj {A : Type} (a b : A) : Normal a = Normal b -> a = b.
Proof. intros H. injection H as H. exact H. Qed.

(** The result of the analyzer, field by field. *)
Lemma analyze_shape (leo : LeoProfanity) (text : jsstring)
    (r : PreCheckResult) :
  analyzeTextForModeration leo text = Normal r ->
  promoHits r = word_hits PROMO_WORDS (sanitizeInput text)
  /\ spamHits r = word_hits SPAM_WORDS (sanitizeInput text)
  /\ phiDetections r = phi_detections_of (sanitizeInput text)
  /\ categories r
     = (if nonempty (badWordHits r) then ["bad_words"%string] else [])
       ++ (if nonempty (promoHits r) then ["promotion"%string] else [])
       ++ (if nonempty (spamHits r) then ["spam"%string] else [])
       ++ (if nonempty (phiDetections r) then ["phi"%string] else [])
  /\ alertRequired r = nonempty (categories r)
  /\ (leo = LeoMissing ->
      badWordHits r = word_hits prohibitedWords (sanitizeInput text)).
Proof.
  unfold analyzeTextForModeration.
  destruct leo as [| |check].
  - cbn [bind]. intros H. apply Normal_inj in H. subst r.
    cbn [promoHits spamHits phiDetections categories alertRequired badWordHits].
    repeat (split; [reflexivity|]). reflexivity.
  - cbn [bind]. intros H. apply Normal_inj in H. subst r.
    cbn [promoHits spamHits phiDetections categories alertRequired badWordHits].
    repeat (split; [reflexivity|]). discriminate.
  - destruct (check (sanitizeInput text)) as [profane|]; cbn [bind];
      [|discriminate].
    intros H. apply Normal_inj in H. subst r.
    cbn [promoHits spamHits phiDetections categories alertRequired badWordHits].
    repeat (split; [reflexivity|]). discriminate.
Qed.


(** X14. When the analyzer puts a text in the category "phi", [checkForPHI]
    blocks the same text, with the reason of the first detection of the
    analyzer, and the match of that detection occurs in the sanitized
    text. *)
Theorem analyzer_phi_is_blocked (leo : LeoProfanity) (text : jsstring)
    (r : PreCheckResult) :
  analyzeTextForModeration leo text = Normal r ->
  In "phi"%string (categories r) ->
  exists why mtch,
    hd_error (phiDetections r) = Some (why, mtch)
    /\ infix mtch (sanitizeInput text)
    /\ checkForPHI text = {| blocked := true; blocked_reason := Some why |}.
Proof.
  intros E Hphi.
  destruct (analyze_shape leo text r E) as (_ & _ & Hdet & Hcat & _ & _).
  rewrite Hcat in Hphi.
  assert (Hne : nonempty (phiDetections r) = true).
  { destruct (nonempty (badWordHits r)), (nonempty (promoHits r)),
      (nonempty (spamHits r)), (nonempty (phiDetections r));
      try reflexivity; cbn in Hphi;
      repeat (destruct Hphi as [Hphi|Hphi]; try discriminate);
      contradiction. }
  destruct (phiDetections r) as [|[why mtch] more] eqn:Ed; [discriminate|].
  exists why, mtch. split; [reflexivity|].
  assert (Hhd : hd_error (phi_detections_of (sanitizeInput text))
                = Some (why, mtch)) by (rewrite <- Hdet; reflexivity).
  apply first_detection_blocks in Hhd. destruct Hhd as [Hfirst Hinfix].
  split; [exact Hinfix|]. unfold checkForPHI. rewrite Hfirst. reflexivity.
Qed.

(** The test 'blocks phone numbers' of [tests/moderation.test.js]. *)
Lemma analyzer_phi_is_blocked_witness :
  blocked (checkForPHI (js "Call me at 555-123-4567")) = true
  /\ blocked_reason (checkForPHI (js "Call me at 555-123-4567"))
     = Some "Possible phone number"%string.
Proof.
  destruct (analyzeTextForModeration LeoMissing (js "Call me at 555-123-4567"))
    as [r|] eqn:E; [|vm_compute in E; discriminate].
  destruct (analyzer_phi_is_blocked LeoMissing _ r E)
    as (why & mtch & Hhd & _ & Hblocked).
  - vm_compute in E. injection E as <-. cbn. auto.
  - rewrite Hblocked. cbn [blocked blocked_reason]. split; [reflexivity|].
    vm_compute in E. injection E as <-. cbn in Hhd. injection Hhd as <- _.
    reflexivity.
Defined.








(** ** Trust and account age *)

Lemma older_than_mono (days now c1 c2 : Z) :
  (c1 <= c2)%Z -> older_than days now c2 = true -> older_than days now c1 = true.
Proof.
  unfold older_than. rewrite !Z.ltb_lt. lia.
Qed.

Lemma trust_spec_mono (now c1 c2 : Z) :
  (c1 <= c2)%Z ->
  trust_spec now c2 <= trust_spec now c1
  /\ 0.7 <= trust_spec now c2 /\ trust_spec now c1 <= 0.9.
Proof.
  intros Hle. unfold trust_spec.
  pose proof (older_than_mono 30 now c1 c2 Hle) as H30.
  pose proof (older_than_mono 90 now c1 c2 Hle) as H90.
  destruct (older_than 30 now c2), (older_than 90 now c2);
    try rewrite (H30 eq_refl); try rewrite (H90 eq_refl);
    destruct (older_than 30 now c1), (older_than 90 now c1);
    repeat split; discriminate.
Qed.

(** X16. Of two accounts with a creation time, the older one never gets the
    lower trust score, and both scores lie between 0.7 and 0.9: the cap at 1
    of [getUserTrustScore] is never reached. *)
Theorem trust_grows_with_age (h : Host) (u1 u2 : jsval) (c1 c2 : Z) :
  findById h u1 = Normal (Some {| createdAt := Some c1 |}) ->
  findById h u2 = Normal (Some {| createdAt := Some c2 |}) ->
  (c1 <= c2)%Z ->
  exists q1 q2,
    getUserTrustScore h u1 = Normal q1
    /\ getUserTrustScore h u2 = Normal q2
    /\ q2 <= q1 /\ 0.7 <= q2 /\ q1 <= 0.9.
Proof.
  intros E1 E2 Hle. unfold getUserTrustScore. rewrite E1, E2.
  cbn [bind try_catch]. eexists. eexists.
  split; [reflexivity|]. split; [reflexivity|].
  rewrite !trust_of_user_spec. apply trust_spec_mono, Hle.
Qed.

Lemma trust_grows_with_age_witness :
  exists q1 q2,
    getUserTrustScore (fallback_host two_user_lookup (100 * ms_per_day))
      (JStr (js "old")) = Normal q1
    /\ getUserTrustScore (fallback_host two_user_lookup (100 * ms_per_day))
         (JStr (js "new")) = Normal q2
    /\ q2 <= q1.
Proof.
  destruct (trust_grows_with_age
              (fallback_host two_user_lookup (100 * ms_per_day))
              (JStr (js "old")) (JStr (js "new")) 0 (50 * ms_per_day))
    as (q1 & q2 & E1 & E2 & Hle & _).
  - reflexivity.
  - reflexivity.
  - vm_compute. discriminate.
  - exists q1, q2. repeat split; assumption.
Defined.

(** ** The sales pitch score *)

Lemma sales_fold (lowerText : jsstring) (l : list jsstring) :
  forall st : list jsstring * Q,
    let out :=
      fold_left
        (fun (st : list jsstring * Q) keyword =>
           if includes lowerText keyword
           then (fst st ++ [keyword], snd st + 0.2)
           else st) l st in
    fst out = fst st ++ filter (fun k => includes lowerText k) l
    /\ snd out == snd st + 0.2 * count (filter (fun k => includes lowerText k) l).
Proof.
  induction l as [|k l IH]; intros st; cbn [fold_left filter].
  - cbn zeta. split; [symmetry; apply app_nil_r|]. unfold count. cbn. ring.
  - cbn zeta. destruct (includes lowerText k).
    + destruct (IH (fst st ++ [k], snd st + 0.2)) as [Hf Hs].
      cbn zeta in Hf, Hs. split.
      * rewrite Hf. cbn [fst]. rewrite <- app_assoc. reflexivity.
      * rewrite Hs, count_cons. cbn [snd]. ring.
    + apply IH.
Qed.

Lemma toLowerCase_idem (s : jsstring) :
  toLowerCase (toLowerCase s) = toLowerCase s.
Proof.
  unfold toLowerCase. rewrite map_map. apply map_ext. apply lower_char_idem.
Qed.

(** X17. The sales pitch score counts listed phrases, not occurrences: the
    matches are the phrases of the list that occur in the lower-cased text,
    in list order, the score is 0.2 for each of them, capped at 1, and the
    letter case of the text does not matter. *)
Theorem sales_pitch_closed_form (text : jsstring) :
  sales_matches (detectSalesPitch text)
  = filter (fun k => includes (toLowerCase text) k) SALES_KEYWORDS
  /\ sales_score_of (detectSalesPitch text)
     == Qmin (0.2 * count (sales_matches (detectSalesPitch text))) 1
  /\ detectSalesPitch (toLowerCase text) = detectSalesPitch text.
Proof.
  assert (Hfold := sales_fold (toLowerCase text) SALES_KEYWORDS ([], 0)).
  cbn zeta in Hfold. destruct Hfold as [Hf Hs].
  split; [|split].
  - unfold detectSalesPitch. cbn [sales_matches]. exact Hf.
  - unfold detectSalesPitch. cbn [sales_matches sales_score_of].
    rewrite Hs, Hf. cbn [snd fst app].
    setoid_replace (0 + 0.2 * count (filter (fun k => includes (toLowerCase text) k)
                                       SALES_KEYWORDS))
      with (0.2 * count (filter (fun k => includes (toLowerCase text) k)
                           SALES_KEYWORDS)) by ring.
    apply Q.min_compat; reflexivity.
  - unfold detectSalesPitch. rewrite toLowerCase_idem. reflexivity.
Qed.


(** ** The analyzer and the scan agree on four patterns *)

Lemma phi_detections_of_in (s : jsstring) (why : string) (mtch : jsstring) :
  In (why, mtch) (phi_detections_of s) ->
  exists p, In p phiPatterns /\ c_reason p = why
            /\ regex_test (c_icase p) (c_regex p) s = true.
Proof.
  unfold phi_detections_of. rewrite in_flat_map.
  intros (p & Hp & Hin). exists p. split; [exact Hp|].
  pose proof (match_first_spec (c_icase p) (c_regex p) s None) as Hspec.
  destruct (match_first (c_icase p) (c_regex p) None s) as [m|];
    [|contradiction].
  destruct Hin as [[= <- <-] | []]. split; [reflexivity | apply Hspec].
Qed.

(** The first four entries of [phiPatterns] are patterns of the table of the
    scan. *)
Lemma phiPatterns_in_table (p : PhiCheck) :
  In p phiPatterns -> c_reason p <> "Long numeric identifier"%string ->
  exists P, In P PHI_PATTERNS /\ p_icase P = c_icase p
            /\ p_regex P = c_regex p.
Proof.
  unfold phiPatterns. cbn [In]. intros H Hwhy.
  destruct H as [<-|[<-|[<-|[<-|[<-|[]]]]]]; cbn [c_reason] in Hwhy;
    try contradiction.
  - exists (nth 0 PHI_PATTERNS (Build_Pattern false Eps "" 0)).
    cbn. auto.
  - exists (nth 1 PHI_PATTERNS (Build_Pattern false Eps "" 0)).
    cbn. auto.
  - exists (nth 2 PHI_PATTERNS (Build_Pattern false Eps "" 0)).
    cbn. auto.
  - exists (nth 3 PHI_PATTERNS (Build_Pattern false Eps "" 0)).
    cbn. auto 6.
Qed.

(** X18. What the pre-submission analyzer detects as a phone number, an SSN,
    an e-mail address or a ZIP code (every PHI detection but the "Long
    numeric identifier") is PHI for the scan as well: a scan of the
    sanitized text, as the comment controller runs it, gives a PHI score of
    at least 0.4, sets the flag [phi_detected] and never answers [ALLOW]. *)
Theorem analyzer_phi_blocks_scan (h : Host) (leo : LeoProfanity)
    (text : jsstring) (a : PreCheckResult) (why : string) (mtch : jsstring)
    (userId ctx : jsval) :
  analyzeTextForModeration leo text = Normal a ->
  In (why, mtch) (phiDetections a) ->
  why <> "Long numeric identifier"%string ->
  exists r,
    scan h {| in_text := JStr (sanitizeInput text); in_userId := userId;
              in_context := ctx |} = Normal r
    /\ 0.4 <= phi_score (scores r)
    /\ In phi_detected (flags r)
    /\ status r <> ALLOW.
Proof.
  intros E Hin Hwhy.
  destruct (analyze_shape leo text a E) as (_ & _ & Hdet & _).
  rewrite Hdet in Hin. apply phi_detections_of_in in Hin.
  destruct Hin as (p & Hp & <- & Htest).
  destruct (phiPatterns_in_table p Hp Hwhy) as (P & HP & Hic & Hre).
  rewrite <- Hic, <- Hre in Htest.
  destruct (sanitizeInput text) as [|c tl].
  { exfalso. clear -HP Htest. cbn in HP.
    repeat (destruct HP as [<-|HP]; [vm_compute in Htest; discriminate|]).
    contradiction. }
  apply matches_of_test in Htest.
  destruct (scan_phi h c tl userId ctx) as (r & Er & Hsc & _ & Hst & Hfl).
  exists r. split; [exact Er|].
  assert (Hge : 0.4 <= phi_score (scores r)).
  { rewrite Hsc. apply Q.min_glb; [|discriminate].
    pose proof (table_total_ge (c :: tl) P HP Htest).
    pose proof (phi_weights_ge P HP).
    pose proof (count_nonneg (filter (validated h)
                                (match_all false phone_regex (c :: tl)))).
    lra. }
  split; [exact Hge|]. split.
  - rewrite Hfl. apply flags_of_in. apply gt_true. lra.
  - rewrite Hst. apply status_of_blocked. left. apply gt_true. lra.
Qed.

Lemma analyzer_phi_blocks_scan_witness :
  exists r,
    scan (fallback_host failing_lookup 0)
      {| in_text := JStr (sanitizeInput (js "<i>SSN</i> 123-45-6789"));
         in_userId := JUndefined; in_context := JUndefined |} = Normal r
    /\ status r <> ALLOW.
Proof.
  destruct (analyzeTextForModeration LeoMissing (js "<i>SSN</i> 123-45-6789"))
    as [a|] eqn:E; [|vm_compute in E; discriminate].
  destruct (analyzer_phi_blocks_scan (fallback_host failing_lookup 0)
              LeoMissing _ a "Possible SSN" (js "123-45-6789")
              JUndefined JUndefined E)
    as (r & Er & _ & _ & Hs).
  - vm_compute in E. injection E as <-. cbn. auto.
  - discriminate.
  - exists r. split; assumption.
Defined.

(** ** Stems at the start of the text *)

Lemma index_of_prefix (t p : jsstring) :
  startsWith t p = true -> index_of t p = Some 0%nat.
Proof. intros H. rewrite index_of_unfold, H. reflexivity. Qed.

Lemma profanityPatterns_length (p : jsstring) :
  In p profanityPatterns -> (2 <= length p)%nat.
Proof.
  unfold profanityPatterns. cbn [map In]. intros H.
  repeat (destruct H as [<-|H]; [cbn; lia|]). contradiction.
Qed.

(** X19. When the normalised form of a valid text begins with an entry of
    the profanity pattern list, of any length ("ass" in "Assistance", "dam"
    in "Damage"), the toxicity score is 1 and [scan] answers [REJECT]. *)
Theorem leading_stem_rejects (h : Host) (c : ascii) (tl : jsstring)
    (userId ctx : jsval) (p : jsstring) :
  In p profanityPatterns ->
  startsWith (normalizeTextForDetection (c :: tl)) p = true ->
  detectToxicity h (c :: tl)
  = Normal {| tox_score_of := 1.0; tox_isProfane := true |}
  /\ exists r,
       scan h {| in_text := JStr (c :: tl); in_userId := userId;
                 in_context := ctx |} = Normal r
       /\ status r = REJECT.
Proof.
  intros Hin Hstart.
  pose proof (profanityPatterns_length p Hin) as Hlen.
  pose proof (startsWith_length _ _ Hstart) as Hlen'.
  assert (Hcheck : checkProfanityPatterns (normalizeTextForDetection (c :: tl))
                   = true).
  { unfold checkProfanityPatterns.
    replace (length (normalizeTextForDetection (c :: tl)) <? 2)%nat with false
      by (symmetry; apply Nat.ltb_ge; lia).
    apply (check_patterns_in _ p); [exact Hin|].
    unfold check_pattern.
    replace (length p <? 2)%nat with false
      by (symmetry; apply Nat.ltb_ge; lia).
    rewrite (index_of_prefix _ _ Hstart). reflexivity. }
  assert (Htox : detectToxicity h (c :: tl)
                 = Normal {| tox_score_of := 1.0; tox_isProfane := true |}).
  { rewrite detectToxicity_signals. unfold hasObfuscatedProfanity at 1.
    rewrite Hcheck, orb_true_r. reflexivity. }
  split; [exact Htox|].
  destruct (scan_toxic h c tl userId ctx Htox) as (r & E & _ & Hs).
  exists r. split; assumption.
Qed.

Lemma leading_stem_rejects_witness :
  exists r,
    scan (fallback_host failing_lookup 0)
      (text_input "Assistance needed" JUndefined JUndefined) = Normal r
    /\ status r = REJECT.
Proof.
  destruct (leading_stem_rejects (fallback_host failing_lookup 0)
              "A" (js "ssistance needed") JUndefined JUndefined (js "ass"))
    as (_ & r & E & Hs).
  - vm_compute. tauto.
  - vm_compute. reflexivity.
  - exists r. split; assumption.
Defined.
